(** * MeltScan: a shallow embedding of the port scanner and its properties

    The development follows [meltscan_cli.py] and [meltscan_gui.py]:
    the target and port parsers, the three probe functions, the worker
    pool of the GUI and the two shells' export routines.

    Texts are Rocq strings read as ASCII text: white space and digits
    are the ASCII ones, and [int()] is taken without the interpreter's
    limit on the number of digits.  The operating system, the network and
    the packet library appear as an explicit environment whose answers the
    probes inspect; exceptions are values of class [Exception] carrying the
    text that [str(e)] yields.  Timeouts are rational numbers.  A socket
    that nothing refers to any more is finalised at once, as the reference
    counts of CPython have it. *)

From Stdlib Require Import Ascii String ZArith QArith Qcanon Lia.
From stdpp Require Import base numbers list strings gmap sorting.

Open Scope Z_scope.

(** ** Python string primitives used by the parsers *)

Module PyStr.

Definition code (c : ascii) : Z := Z.of_nat (nat_of_ascii c).

(** [str.isspace] on ASCII text, which is also the class [\s] of [re]. *)
Definition isspace (c : ascii) : bool :=
  let n := code c in
  ((9 <=? n) && (n <=? 13)) || ((28 <=? n) && (n <=? 32)).

(** The C-level whitespace that [int()] skips around the digits. *)
Definition c_isspace (c : ascii) : bool :=
  let n := code c in
  ((9 <=? n) && (n <=? 13)) || (n =? 32).

Definition isdigit (c : ascii) : bool :=
  let n := code c in (48 <=? n) && (n <=? 57).

Definition digit_val (c : ascii) : Z := code c - 48.

Definition eqc (a b : ascii) : bool := bool_decide (a = b).

Fixpoint lstrip_by (sp : ascii → bool) (s : string) : string :=
  match s with
  | String c s' => if sp c then lstrip_by sp s' else s
  | EmptyString => EmptyString
  end.

Fixpoint rstrip_by (sp : ascii → bool) (s : string) : string :=
  match s with
  | String c s' =>
      match rstrip_by sp s' with
      | EmptyString => if sp c then EmptyString else String c EmptyString
      | r => String c r
      end
  | EmptyString => EmptyString
  end.

(** [s.strip()] *)
Definition strip (s : string) : string := rstrip_by isspace (lstrip_by isspace s).

(** [ch in s] for a one-character [ch] *)
Fixpoint contains (ch : ascii) (s : string) : bool :=
  match s with
  | String c s' => eqc c ch || contains ch s'
  | EmptyString => false
  end.

(** [s.split(ch)]: every occurrence of [ch] separates two pieces, empty
    pieces included. *)
Fixpoint split (ch : ascii) (s : string) : list string :=
  match s with
  | EmptyString => [EmptyString]
  | String c s' =>
      if eqc c ch then EmptyString :: split ch s'
      else match split ch s' with
           | h :: t => String c h :: t
           | [] => [String c EmptyString]
           end
  end.

Definition starts_in (cls : ascii → bool) (s : string) : bool :=
  match s with
  | String c _ => cls c
  | EmptyString => false
  end.

(** [re.split("[cls]+", s)]: a maximal run of separator characters is one
    separator; a run at either end of the text leaves an empty piece. *)
Fixpoint re_split (cls : ascii → bool) (s : string) : list string :=
  match s with
  | EmptyString => [EmptyString]
  | String c s' =>
      if cls c then
        if starts_in cls s' then re_split cls s'
        else EmptyString :: re_split cls s'
      else match re_split cls s' with
           | h :: t => String c h :: t
           | [] => [String c EmptyString]
           end
  end.

(** The digits of a decimal literal after its first digit: single
    underscores may separate digits. *)
Fixpoint int_digits (acc : Z) (after_us : bool) (s : string) : option Z :=
  match s with
  | EmptyString => if after_us then None else Some acc
  | String c s' =>
      if isdigit c then int_digits (10 * acc + digit_val c) false s'
      else if eqc c "_" then
        if after_us then None else int_digits acc true s'
      else None
  end.

Definition int_unsigned (s : string) : option Z :=
  match s with
  | String c s' => if isdigit c then int_digits (digit_val c) false s' else None
  | EmptyString => None
  end.

(** [int(s)]; [None] stands for [ValueError]. *)
Definition int (s : string) : option Z :=
  match rstrip_by c_isspace (lstrip_by c_isspace s) with
  | String c s' =>
      if eqc c "-" then Z.opp <$> int_unsigned s'
      else if eqc c "+" then int_unsigned s'
      else int_unsigned (String c s')
  | EmptyString => None
  end.

(** [str(n)] for a non-negative [n], most significant digit first;
    [fuel] bounds the number of digits. *)
Fixpoint digits_of (fuel : nat) (n : Z) (acc : string) : string :=
  match fuel with
  | O => acc
  | S fuel' =>
      let acc' := String (ascii_of_nat (Z.to_nat (48 + n mod 10))) acc in
      if n <? 10 then acc' else digits_of fuel' (n / 10) acc'
  end.

(** [str(n)] for an integer [n]. *)
Definition str_of_int (n : Z) : string :=
  if n <? 0 then String "-" (digits_of (S (Z.to_nat (Z.log2 (- n)))) (- n) EmptyString)
  else digits_of (S (Z.to_nat (Z.log2 n))) n EmptyString.

End PyStr.

(** ** Port parser ([parse_ports], identical in both files) *)

Definition port_sep (c : ascii) : bool :=
  PyStr.isspace c || PyStr.eqc c "," || PyStr.eqc c ";".

(** [for port in range(lo, hi): ports.add(port)] *)
Definition add_range (ports : gset Z) (lo hi : Z) : gset Z :=
  foldl (λ s port, {[port]} ∪ s) ports (seqZ lo (hi - lo)).

(** One round of the loop over [parts].  An exception inside either [try]
    leaves [ports] as it was: every operation that can raise comes before
    the first [ports.add]. *)
Definition parse_ports_token (ports : gset Z) (p : string) : gset Z :=
  if bool_decide (p = EmptyString) then ports
  else if PyStr.contains "-" p then
    match PyStr.split "-" p with
    | [sa; sb] =>
        match PyStr.int sa, PyStr.int sb with
        | Some a, Some b =>
            let a := if a <? 1 then 1 else a in
            let b := if 65535 <? b then 65535 else b in
            add_range ports (Z.min a b) (Z.max a b + 1)
        | _, _ => ports
        end
    | _ => ports
    end
  else
    match PyStr.int p with
    | Some val => if (1 <=? val) && (val <=? 65535) then {[val]} ∪ ports else ports
    | None => ports
    end.

Definition parse_ports (text : string) : list Z :=
  if bool_decide (text = EmptyString) then []
  else
    let parts := PyStr.re_split port_sep (PyStr.strip text) in
    merge_sort Z.le (elements (foldl parse_ports_token ∅ parts)).

Example parse_ports_list : parse_ports "22,80,443" = [22; 80; 443].
Proof. vm_compute. reflexivity. Qed.

Example parse_ports_mixed : parse_ports " 443; 80 1000-1003,,x,80 " = [80; 443; 1000; 1001; 1002; 1003].
Proof. vm_compute. reflexivity. Qed.

(** ** Target parser ([parse_targets], identical in both files) *)

Definition target_sep (c : ascii) : bool :=
  PyStr.eqc c "010" || PyStr.eqc c "," || PyStr.eqc c ";".

(** The [ipaddress] module of the Python library is not part of the
    program; the parser is stated over any implementation of its two
    entry points. *)
Section Targets.

(** [[str(ip) for ip in ipaddress.ip_network(t, strict=False).hosts()]],
    or [None] when [ip_network] raises. *)
Variable ip_network_hosts : string → option (list string).

(** Whether the text is a dotted-quad, respectively a colon-hex, address
    literal: what [IPv4Address] and [IPv6Address] accept once their
    leading test for a slash has passed. *)
Variable ipv4_literal ipv6_literal : string → bool.

(** [ipaddress.ip_address(t)] returns normally.  It tries [IPv4Address]
    and then [IPv6Address]; the constructor of either begins with
    [if '/' in addr_str: raise AddressValueError(...)]. *)
Definition ip_address_ok (t : string) : bool :=
  (if PyStr.contains "/" t then false else ipv4_literal t)
  || (if PyStr.contains "/" t then false else ipv6_literal t).

(** One round of the loop over [raw]. *)
Definition parse_targets_token (out : list string) (token : string) : list string :=
  let t := PyStr.strip token in
  if bool_decide (t = EmptyString) then out
  else if PyStr.contains "/" t then
    match ip_network_hosts t with
    | Some hosts => foldl (λ o ip, o ++ [ip]) out hosts
    | None => if ip_address_ok t then out ++ [t] else out
    end
  else out ++ [t].

Definition raw_targets (text : string) : list string :=
  PyStr.re_split target_sep (PyStr.strip text).

Definition parse_targets (text : string) : list string :=
  foldl parse_targets_token [] (raw_targets text).

End Targets.

(** ** Scan states and their display names *)

(** The states a probe can report, as the program spells them. *)
Definition scan_states : list string :=
  ["open"; "closed"; "filtered"; "open|filtered"; "unknown"]%string.

Definition mapping : gmap string string :=
  list_to_map
    [("open", "Aberta"); ("closed", "Fechada"); ("filtered", "Filtrada");
     ("open|filtered", "Aberta/Filtrada"); ("timeout", "Tempo esgotado");
     ("unknown", "Desconhecida")]%string.

(** [mapping.get(state, state)] *)
Definition traduz_estado (state : string) : string :=
  default state (mapping !! state).

(** The colour table of [cor_estado]. *)
Definition colours : gmap string string :=
  list_to_map
    [("Aberta", "lightgreen"); ("Fechada", "salmon"); ("Filtrada", "khaki");
     ("Aberta/Filtrada", "orange"); ("Tempo esgotado", "lightgray");
     ("Desconhecida", "white")]%string.

(** [{...}.get(state_pt, "white")] *)
Definition cor_estado (state_pt : string) : string :=
  default "white"%string (colours !! state_pt).

(** ** The environment of a probe *)

(** What the network does with a connection attempt. *)
Inductive connect_event :=
  | Established
  | Refused
  | TimedOut
  | Unreachable.

(** The value of [errno] that [connect_ex] hands back (Linux numbering);
    a timeout of the socket is reported as [EWOULDBLOCK]. *)
Definition errno_of (ev : connect_event) : Z :=
  match ev with
  | Established => 0
  | Refused => 111
  | TimedOut => 11
  | Unreachable => 113
  end.

(** Packets built with the packet library: [IP(dst=target) / TCP(dport=port,
    flags="S")] and [IP(dst=target) / UDP(dport=port)]. *)
Inductive layer4 := TCP_SYN (dport : Z) | UDP_datagram (dport : Z).
Record packet := IP { dst : string; payload : layer4 }.

(** A reply: the flags of its TCP layer when it has one, and whether it
    has a UDP layer. *)
Record response := { tcp_flags : option Z; udp_layer : bool }.

Inductive sr1_outcome :=
  | Sr1Raises (msg : string)
  | Sr1None
  | Sr1Reply (resp : response).

Record Env := {
  SCAPY_AVAILABLE : bool;
  (** how many descriptors the process may hold *)
  fd_limit : nat;
  (** the text of [socket.gaierror] when the host name does not resolve *)
  gaierror : string → option string;
  connect_event_of : string → Z → Qc → connect_event;
  (** building the packet and [sr1(pkt, timeout=timeout)] *)
  sr1_outcome_of : packet → Qc → sr1_outcome;
}.

(** The part of the process state the probes touch: the sockets that are
    open, each with its timeout, and the verbosity setting of the packet
    library. *)
Record world := World {
  socks : gmap nat (option Qc);
  next_fd : nat;
  conf_verb : Z;
}.

Inductive exn := Exception (msg : string).
Definition str_exn (e : exn) : string := let 'Exception msg := e in msg.

Inductive result (A : Type) :=
  | Ok (a : A)
  | Raise (e : exn).
Arguments Ok {A} a.
Arguments Raise {A} e.

(** Computations that read and change the world and may raise. *)
Definition M (A : Type) : Type := world → result A * world.

#[global] Instance M_ret : MRet M := λ A a w, (Ok a, w).
#[global] Instance M_bind : MBind M := λ A B k m w,
  match m w with
  | (Ok a, w') => k a w'
  | (Raise e, w') => (Raise e, w')
  end.

Definition raise {A} (e : exn) : M A := λ w, (Raise e, w).

(** [try: m  except Exception as e: h e] *)
Definition try_except {A} (m : M A) (h : exn → M A) : M A :=
  λ w, match m w with
       | (Ok a, w') => (Ok a, w')
       | (Raise e, w') => h e w'
       end.

(** ** The socket operations of [tcp_connect_scan] *)

(** [socket.socket(AF_INET, SOCK_STREAM)]: a new descriptor, or [OSError]
    when the process holds as many as it may. *)
Definition socket_socket (env : Env) : M nat :=
  λ w, if decide (fd_limit env ≤ size (socks w))%nat
       then raise (Exception "[Errno 24] Too many open files") w
       else (Ok (next_fd w),
             World (<[next_fd w := None]> (socks w)) (S (next_fd w)) (conf_verb w)).

(** The largest timeout, in seconds, whose nanoseconds fit the signed
    64-bit integer in which a socket keeps its timeout. *)
Definition max_timeout : Qc := Q2Qc (9223372036854775807 # 1000000000).

(** Up to here the nanoseconds of a timeout beyond [max_timeout] round to
    2^63, which wraps to a negative number. *)
Definition wrap_timeout : Qc := Q2Qc (9223372036854776832 # 1000000000).

(** [sock.settimeout(timeout)]: a negative value is a [ValueError]; a
    value beyond [max_timeout] is an [OverflowError], or a [ValueError]
    again where its nanoseconds wrap. *)
Definition settimeout (sock : nat) (timeout : Qc) : M () :=
  λ w, if decide (timeout < 0)%Qc
       then raise (Exception "Timeout value out of range") w
       else if decide (max_timeout < timeout)%Qc
       then raise (Exception (if decide (timeout ≤ wrap_timeout)%Qc
                              then "Timeout value out of range"
                              else "timestamp too large to convert to C _PyTime_t")) w
       else (Ok (), World (<[sock := Some timeout]> (socks w)) (next_fd w) (conf_verb w)).

(** [sock.connect_ex((target, port))]: errors of the connect call itself
    come back as a number; a host that does not resolve and a port outside
    [0, 65535] raise. *)
Definition connect_ex (env : Env) (sock : nat) (target : string) (port : Z) : M Z :=
  λ w, match gaierror env target with
       | Some msg => raise (Exception msg) w
       | None =>
           if (port <? 0) || (65535 <? port)
           then raise (Exception "connect_ex(): port must be 0-65535.") w
           else
             let timeout := default 0%Qc (default None (socks w !! sock)) in
             (Ok (errno_of (connect_event_of env target port timeout)), w)
       end.

(** [sock.close()] *)
Definition close (sock : nat) : M () :=
  λ w, (Ok (), World (delete sock (socks w)) (next_fd w) (conf_verb w)).

(** ** Probes *)

(** The handler all three probes share:
    [except Exception as e: return "unknown", str(e)]. *)
Definition unknown_of (e : exn) : M (string * string) :=
  mret ("unknown"%string, str_exn e).

(** The [try] block of [tcp_connect_scan] in [meltscan_gui.py]. *)
Definition tcp_connect_try (env : Env) (target : string) (port : Z) (timeout : Qc)
  : M (string * string) :=
  sock ← socket_socket env;
  settimeout sock timeout;;
  result ← connect_ex env sock target port;
  close sock;;
  if result =? 0 then mret ("open", "")%string
  else mret ("closed", "")%string.

(** Leaving a call that was entered in world [w] and whose body ended in
    world [w']: the frame is released, and with it the socket bound to the
    local [sock] when one was created, whose descriptor is then
    [next_fd w].  Nothing else refers to that socket, so its finaliser
    closes the descriptor, unless [close] did so before. *)
Definition release_frame (w w' : world) : world :=
  if decide (next_fd w < next_fd w')%nat
  then World (delete (next_fd w) (socks w')) (next_fd w') (conf_verb w')
  else w'.

(** A call of a function with that body. *)
Definition call {A} (body : M A) : M A :=
  λ w, let '(r, w') := body w in (r, release_frame w w').

Definition tcp_connect_scan (env : Env) (target : string) (port : Z) (timeout : Qc)
  : M (string * string) :=
  call (try_except (tcp_connect_try env target port timeout) unknown_of).

(** [tcp_connect_scan] of [meltscan_cli.py], which differs in the shape of
    its [return] only. *)
Definition tcp_connect_try_cli (env : Env) (target : string) (port : Z) (timeout : Qc)
  : M (string * string) :=
  sock ← socket_socket env;
  settimeout sock timeout;;
  result ← connect_ex env sock target port;
  close sock;;
  mret (if result =? 0 then "open"%string else "closed"%string, ""%string).

Definition tcp_connect_scan_cli (env : Env) (target : string) (port : Z) (timeout : Qc)
  : M (string * string) :=
  call (try_except (tcp_connect_try_cli env target port timeout) unknown_of).

(** [conf.verb = 0] *)
Definition set_conf_verb (v : Z) : M () :=
  λ w, (Ok (), World (socks w) (next_fd w) v).

(** [sr1(pkt, timeout=timeout)], the packet being built on the way. *)
Definition sr1 (env : Env) (pkt : packet) (timeout : Qc) : M (option response) :=
  λ w, match sr1_outcome_of env pkt timeout with
       | Sr1Raises msg => raise (Exception msg) w
       | Sr1None => (Ok None, w)
       | Sr1Reply resp => (Ok (Some resp), w)
       end.

(** The [try] block of [tcp_syn_scan]. *)
Definition tcp_syn_try (env : Env) (target : string) (port : Z) (timeout : Qc)
  : M (string * string) :=
  set_conf_verb 0;;
  resp ← sr1 env (IP target (TCP_SYN port)) timeout;
  match resp with
  | None => mret ("filtered", "Sem resposta")%string
  | Some resp =>
      match tcp_flags resp with
      | Some flags =>
          if Z.land flags 0x12 =? 0x12 then mret ("open", "")%string
          else if Z.land flags 0x14 =? 0x14 then mret ("closed", "")%string
          else mret ("filtered", "Resposta inesperada")%string
      | None => mret ("filtered", "Resposta inesperada")%string
      end
  end.

(** [tcp_syn_scan], identical in both files. *)
Definition tcp_syn_scan (env : Env) (target : string) (port : Z) (timeout : Qc)
  : M (string * string) :=
  if negb (SCAPY_AVAILABLE env) then tcp_connect_scan env target port timeout
  else try_except (tcp_syn_try env target port timeout) unknown_of.

(** The CLI's [tcp_syn_scan] falls back on the CLI's [tcp_connect_scan]. *)
Definition tcp_syn_scan_cli (env : Env) (target : string) (port : Z) (timeout : Qc)
  : M (string * string) :=
  if negb (SCAPY_AVAILABLE env) then tcp_connect_scan_cli env target port timeout
  else try_except (tcp_syn_try env target port timeout) unknown_of.

(** The [try] block of [udp_scan]. *)
Definition udp_try (env : Env) (target : string) (port : Z) (timeout : Qc)
  : M (string * string) :=
  set_conf_verb 0;;
  resp ← sr1 env (IP target (UDP_datagram port)) timeout;
  match resp with
  | None => mret ("open|filtered", "Sem resposta")%string
  | Some resp =>
      if udp_layer resp then mret ("open", "")%string
      else mret ("filtered", "Provavelmente filtrada")%string
  end.

(** [udp_scan], identical in both files. *)
Definition udp_scan (env : Env) (target : string) (port : Z) (timeout : Qc)
  : M (string * string) :=
  if negb (SCAPY_AVAILABLE env) then mret ("unknown", "Scapy não disponível")%string
  else try_except (udp_try env target port timeout) unknown_of.

(** ** The worker pool of [meltscan_gui.py] *)

Record ScanResult := mkScanResult {
  target : string;
  proto : string;
  port : Z;
  state : string;
  info : string;
}.

(** An entry of the task queue: [(target, proto, port)]. *)
Definition job : Type := string * string * Z.

Definition job_of (r : ScanResult) : job := (target r, proto r, port r).

(** The [settings] dictionary. *)
Record settings := { timeout : Qc; tcp_mode : string }.

(** The probe [worker] selects for a job. *)
Definition probe_of (env : Env) (st : settings) (j : job) : M (string * string) :=
  let '(t, pr, p) := j in
  if bool_decide (pr = "tcp"%string) then
    if bool_decide (tcp_mode st = "syn"%string)
    then tcp_syn_scan env t p (timeout st)
    else tcp_connect_scan env t p (timeout st)
  else udp_scan env t p (timeout st).

(** Where a worker thread stands in the body of [worker]. *)
Inductive pc :=
  | LoopTest                    (* at [while not stop_event.is_set()] *)
  | GetJob                      (* at [taskq.get_nowait()] *)
  | StopTest (j : job)          (* at [if stop_event.is_set()], job in hand *)
  | Probe (j : job)             (* at the call of the probe *)
  | Append (r : ScanResult)     (* at [results.append(...)] *)
  | Exited.

(** What the threads share: the queue with its count of unfinished tasks,
    the result list, the stop flag, and the process state of the probes. *)
Record pool := Pool {
  taskq : list job;
  unfinished_tasks : nat;
  results : list ScanResult;
  stop_event : bool;
  threads : list pc;
  net : world;
}.

Definition set_thread (i : nat) (p : pc) (s : pool) : pool :=
  Pool (taskq s) (unfinished_tasks s) (results s) (stop_event s)
       (<[i := p]> (threads s)) (net s).

(** One atomic step of thread [i]; [None] when there is no such thread or
    it has exited.  The callback [logfn] and [task_done] follow the append
    and touch neither the queue's items nor the results. *)
Definition thread_step (env : Env) (st : settings) (i : nat) (s : pool) : option pool :=
  match threads s !! i with
  | None => None
  | Some LoopTest =>
      Some (set_thread i (if stop_event s then Exited else GetJob) s)
  | Some GetJob =>
      match taskq s with
      | [] => Some (set_thread i Exited s)
      | j :: q =>
          Some (Pool q (unfinished_tasks s) (results s) (stop_event s)
                     (<[i := StopTest j]> (threads s)) (net s))
      end
  | Some (StopTest j) =>
      if stop_event s
      then Some (Pool (taskq s) (pred (unfinished_tasks s)) (results s) (stop_event s)
                      (<[i := Exited]> (threads s)) (net s))
      else Some (set_thread i (Probe j) s)
  | Some (Probe j) =>
      match probe_of env st j (net s) with
      | (Ok (state, info), w') =>
          Some (Pool (taskq s) (unfinished_tasks s) (results s) (stop_event s)
                     (<[i := Append (mkScanResult j.1.1 j.1.2 j.2 state info)]> (threads s)) w')
      | (Raise _, w') =>
          (* an exception that escapes the probe ends the thread *)
          Some (Pool (taskq s) (unfinished_tasks s) (results s) (stop_event s)
                     (<[i := Exited]> (threads s)) w')
      end
  | Some (Append r) =>
      Some (Pool (taskq s) (pred (unfinished_tasks s)) (results s ++ [r]) (stop_event s)
                 (<[i := LoopTest]> (threads s)) (net s))
  | Some Exited => None
  end.

(** What can happen next: some thread moves, [stop_scan] sets the flag,
    or a later [start_scan] clears it ([self.stop_event.clear()]) while
    threads of this scan are still at work: the flag is one object, shared
    by all scans of the application. *)
Inductive event := Run (i : nat) | Stop | Clear.

Definition pool_step (env : Env) (st : settings) (ev : event) (s : pool) : option pool :=
  match ev with
  | Run i => thread_step env st i s
  | Stop => Some (Pool (taskq s) (unfinished_tasks s) (results s) true (threads s) (net s))
  | Clear => Some (Pool (taskq s) (unfinished_tasks s) (results s) false (threads s) (net s))
  end.

(** A run along a schedule. *)
Fixpoint pool_run (env : Env) (st : settings) (evs : list event) (s : pool) : option pool :=
  match evs with
  | [] => Some s
  | ev :: evs' =>
      match pool_step env st ev s with
      | Some s' => pool_run env st evs' s'
      | None => None
      end
  end.

(** [run_workers] has joined every thread. *)
Definition completed (s : pool) : Prop := Forall (λ p, p = Exited) (threads s).

(** The queue [start_scan] fills:
    [for t in targets: for p in ports: if tcp: put; if udp: put]. *)
Definition enqueue_port (tcp udp : bool) (t : string) (q : list job) (p : Z) : list job :=
  let q := if tcp then q ++ [(t, "tcp"%string, p)] else q in
  if udp then q ++ [(t, "udp"%string, p)] else q.

Definition enqueue_target (tcp udp : bool) (ports : list Z) (q : list job) (t : string)
  : list job :=
  foldl (enqueue_port tcp udp t) q ports.

Definition enqueue_jobs (tcp udp : bool) (targets : list string) (ports : list Z) : list job :=
  foldl (enqueue_target tcp udp ports) [] targets.

(** [max(1, min(500, num_threads))] *)
Definition pool_size (num_threads : Z) : nat :=
  Z.to_nat (Z.max 1 (Z.min 500 num_threads)).

(** The pool as [start_scan] and [run_workers] set it up: results cleared,
    flag cleared, queue filled, every thread at the top of its loop. *)
Definition start_scan (tcp udp : bool) (targets : list string) (ports : list Z)
    (num_threads : Z) (w : world) : pool :=
  let q := enqueue_jobs tcp udp targets ports in
  Pool q (length q) [] false (replicate (pool_size num_threads) LoopTest) w.

(** The number of protocols ticked. *)
Definition enabled_protocols (tcp udp : bool) : nat :=
  (if tcp then 1 else 0) + (if udp then 1 else 0).

(** ** Text of the exported files *)

Definition TAB : string := String "009" EmptyString.
Definition LF : string := String "010" EmptyString.
Definition CRLF : string := String "013" LF.
Definition DQUOTE : ascii := ascii_of_nat 34.

(** [sep.join(fields)] *)
Fixpoint join (sep : string) (fields : list string) : string :=
  match fields with
  | [] => EmptyString
  | [f] => f
  | f :: fs => f +:+ sep +:+ join sep fs
  end.

(** [s.startswith(prefix)] *)
Fixpoint startswith (prefix s : string) : bool :=
  match prefix, s with
  | EmptyString, _ => true
  | String a p', String b s' => PyStr.eqc a b && startswith p' s'
  | String _ _, EmptyString => false
  end.

(** The line an f-string of five tab-separated fields yields. *)
Definition tab_line (t pr : string) (p : Z) (st inf : string) : string :=
  t +:+ TAB +:+ pr +:+ TAB +:+ PyStr.str_of_int p +:+ TAB +:+ st +:+ TAB +:+ inf.

Definition txt_header : string := join TAB ["Alvo"; "Protocolo"; "Porta"; "Estado"; "Info"]%string.

Module Cli.

(** The parsed command line. *)
Record args := {
  tcp : bool;
  udp : bool;
  syn : bool;
  timeout : Qc;
  output : option string;
}.

(** The body of [for port in ports]. *)
Definition scan_port (env : Env) (a : args) (t : string) (results : list string) (p : Z)
  : M (list string) :=
  results ←
    (if tcp a then
       '(state, info) ←
         (if syn a then tcp_syn_scan_cli env t p (timeout a)
          else tcp_connect_scan_cli env t p (timeout a));
       mret (results ++ [tab_line t "TCP" p state info])
     else mret results);
  if udp a then
    '(state, info) ← udp_scan env t p (timeout a);
    mret (results ++ [tab_line t "UDP" p state info])
  else mret results.

(** [for x in xs: acc = body acc x] with effects. *)
Fixpoint for_each {A B} (body : B → A → M B) (acc : B) (xs : list A) : M B :=
  match xs with
  | [] => mret acc
  | x :: xs' => acc' ← body acc x; for_each body acc' xs'
  end.

(** The two nested loops of [main]. *)
Definition scan (env : Env) (a : args) (targets : list string) (ports : list Z)
  : M (list string) :=
  for_each (λ results t, for_each (scan_port env a t) results ports) [] targets.

(** What [main] writes to the output file. *)
Definition output_text (results : list string) : string :=
  (txt_header +:+ LF) +:+ foldr (λ r rest, (r +:+ LF) +:+ rest) EmptyString results.

End Cli.

Module Gui.

(** The line [export_txt] writes for a result. *)
Definition txt_line (r : ScanResult) : string :=
  tab_line (target r) (proto r) (port r) (traduz_estado (state r)) (info r) +:+ LF.

(** [export_txt]: the text written to the chosen file; nothing is
    written without results or without a file name. *)
Definition export_txt (results : list ScanResult) (filepath : string) : option string :=
  if bool_decide (results = []) then None
  else if bool_decide (filepath = EmptyString) then None
  else Some (foldr (λ r rest, txt_line r +:+ rest) EmptyString results).

(** [csv.writer] in its default dialect: a field is quoted when it holds
    a comma, a quote or a line break, and quotes inside it are doubled. *)
Definition csv_special (c : ascii) : bool :=
  PyStr.eqc c "," || PyStr.eqc c DQUOTE || PyStr.eqc c "013" || PyStr.eqc c "010".

Fixpoint csv_any_special (s : string) : bool :=
  match s with
  | String c s' => csv_special c || csv_any_special s'
  | EmptyString => false
  end.

Fixpoint csv_double_quotes (s : string) : string :=
  match s with
  | String c s' =>
      if PyStr.eqc c DQUOTE then String c (String c (csv_double_quotes s'))
      else String c (csv_double_quotes s')
  | EmptyString => EmptyString
  end.

Definition csv_field (s : string) : string :=
  if csv_any_special s
  then String DQUOTE (csv_double_quotes s +:+ String DQUOTE EmptyString)
  else s.

(** [writer.writerow(fields)] *)
Definition writerow (fields : list string) : string :=
  join "," (csv_field <$> fields) +:+ CRLF.

Definition csv_row (r : ScanResult) : string :=
  writerow [target r; proto r; PyStr.str_of_int (port r); traduz_estado (state r); info r].

(** [export_csv] *)
Definition export_csv (results : list ScanResult) (filepath : string) : option string :=
  if bool_decide (results = []) then None
  else if bool_decide (filepath = EmptyString) then None
  else Some (writerow ["Alvo"; "Protocolo"; "Porta"; "Estado"; "Info"]%string
             +:+ foldr (λ r rest, csv_row r +:+ rest) EmptyString results).

End Gui.

(** ** The command line program ([main] of [meltscan_cli.py]) *)

Module Main.

(** The command line after [parse_args]: the positional target text, the
    text given to [--ports], and the flags. *)
Record cmdline := {
  target_arg : string;
  ports_arg : string;
  flags : Cli.args;
}.

(** How a call of [main] ends: [sys.exit(code)] or a plain return; what it
    printed, one entry for each [print]; and the file it wrote, if any. *)
Record outcome := {
  exit_code : option Z;
  stdout : list string;
  written : option (string * string);
}.

(** [f"Porta {port}/TCP: {state} {f'({info})' if info else ''}"] *)
Definition port_line (p : Z) (pr state info : string) : string :=
  "Porta " +:+ PyStr.str_of_int p +:+ "/" +:+ pr +:+ ": " +:+ state +:+ " "
  +:+ (if bool_decide (info = EmptyString) then EmptyString else "(" +:+ info +:+ ")").

(** The body of [for port in ports], with what it prints. *)
Definition scan_port (env : Env) (a : Cli.args) (t : string)
    (acc : list string * list string) (p : Z) : M (list string * list string) :=
  acc ←
    (if Cli.tcp a then
       '(state, info) ←
         (if Cli.syn a then tcp_syn_scan_cli env t p (Cli.timeout a)
          else tcp_connect_scan_cli env t p (Cli.timeout a));
       mret (acc.1 ++ [tab_line t "TCP" p state info],
             acc.2 ++ [port_line p "TCP" state info])
     else mret acc);
  if Cli.udp a then
    '(state, info) ← udp_scan env t p (Cli.timeout a);
    mret (acc.1 ++ [tab_line t "UDP" p state info],
          acc.2 ++ [port_line p "UDP" state info])
  else mret acc.

(** The body of [for target in targets]. *)
Definition scan_target (env : Env) (a : Cli.args) (ports : list Z)
    (acc : list string * list string) (t : string) : M (list string * list string) :=
  Cli.for_each (scan_port env a t) (acc.1, acc.2 ++ [LF +:+ "Alvo: " +:+ t]) ports.

(** ["=" * 60] *)
Definition rule : string := fold_right append EmptyString (replicate 60 "="%string).

Section Main.
(** The address library, as for [parse_targets]. *)
Variable ip_network_hosts : string → option (list string).
Variable ipv4_literal ipv6_literal : string → bool.
(** Writing the output file: the text of the exception when [open] or a
    [write] raises, [None] when the file is written. *)
Variable write_error : string → string → option string.

Definition main (env : Env) (c : cmdline) : M outcome :=
  let a := flags c in
  if negb (Cli.tcp a) && negb (Cli.udp a) then
    mret {| exit_code := Some 1;
            stdout := ["Erro: Especifique pelo menos um protocolo (--tcp ou --udp)"%string];
            written := None |}
  else
    let targets := parse_targets ip_network_hosts ipv4_literal ipv6_literal (target_arg c) in
    let ports := parse_ports (ports_arg c) in
    if bool_decide (targets = []) then
      mret {| exit_code := Some 1;
              stdout := ["Erro: Nenhum alvo válido especificado"%string];
              written := None |}
    else if bool_decide (ports = []) then
      mret {| exit_code := Some 1;
              stdout := ["Erro: Nenhuma porta válida especificada"%string];
              written := None |}
    else
      let banner :=
        ["Iniciando varredura de " +:+ PyStr.str_of_int (Z.of_nat (length targets))
           +:+ " alvo(s) e " +:+ PyStr.str_of_int (Z.of_nat (length ports)) +:+ " porta(s)";
         rule] in
      '(results, printed) ← Cli.for_each (scan_target env a ports) ([], banner) targets;
      match Cli.output a with
      | Some path =>
          if bool_decide (path = EmptyString) then
            mret {| exit_code := None; stdout := printed; written := None |}
          else
            match write_error path (Cli.output_text results) with
            | None =>
                mret {| exit_code := None;
                        stdout := printed ++ [LF +:+ "Resultados salvos em: " +:+ path];
                        written := Some (path, Cli.output_text results) |}
            | Some msg =>
                mret {| exit_code := None;
                        stdout := printed ++ ["Erro ao salvar resultados: " +:+ msg];
                        written := None |}
            end
      | None => mret {| exit_code := None; stdout := printed; written := None |}
      end.

End Main.

End Main.

(** * Properties *)

(** ** Port parser *)

Section PortSets.
Implicit Types (ports : gset Z) (x lo hi : Z).

Lemma elem_of_add_all ports (l : list Z) x :
  x ∈ foldl (λ s port, {[port]} ∪ s) ports l ↔ x ∈ ports ∨ x ∈ l.
Proof.
  revert ports. induction l as [|y l IH]; intros ports; simpl.
  - rewrite elem_of_nil. tauto.
  - rewrite IH, elem_of_union, elem_of_singleton, elem_of_cons. tauto.
Qed.

Lemma elem_of_add_range ports lo hi x :
  x ∈ add_range ports lo hi ↔ x ∈ ports ∨ lo ≤ x < hi.
Proof.
  unfold add_range. rewrite elem_of_add_all, elem_of_seqZ.
  split; (intros [?|?]; [by left | right; lia]).
Qed.

(** The ports a well-formed range token adds, in terms of its two
    numbers. *)
Lemma parse_ports_token_range ports p sa sb a b x :
  PyStr.contains "-" p = true →
  PyStr.split "-" p = [sa; sb] →
  PyStr.int sa = Some a →
  PyStr.int sb = Some b →
  x ∈ parse_ports_token ports p ↔
    x ∈ ports ∨ Z.min (Z.max 1 a) (Z.min 65535 b) ≤ x ≤ Z.max (Z.max 1 a) (Z.min 65535 b).
Proof.
  intros Hc Hs Ha Hb. unfold parse_ports_token.
  case_bool_decide as Hp; [subst p; discriminate|].
  rewrite Hc, Hs, Ha, Hb. cbv zeta.
  rewrite elem_of_add_range.
  replace (if a <? 1 then 1 else a) with (Z.max 1 a)
    by (destruct (Z.ltb_spec a 1); lia).
  replace (if 65535 <? b then 65535 else b) with (Z.min 65535 b)
    by (destruct (Z.ltb_spec 65535 b); lia).
  split; (intros [?|?]; [by left | right; lia]).
Qed.

Lemma parse_ports_token_skip ports p :
  PyStr.contains "-" p = true →
  (∀ sa sb, PyStr.split "-" p = [sa; sb] → PyStr.int sa = None ∨ PyStr.int sb = None) →
  parse_ports_token ports p = ports.
Proof.
  intros Hc Hfail. unfold parse_ports_token.
  case_bool_decide; [done|]. rewrite Hc.
  destruct (PyStr.split "-" p) as [|sa [|sb [|? ?]]]; try done.
  destruct (Hfail sa sb eq_refl) as [-> | ->]; [done|].
  by destruct (PyStr.int sa).
Qed.

End PortSets.

Lemma parse_ports_Sorted text : Sorted Z.le (parse_ports text).
Proof.
  unfold parse_ports. case_bool_decide; [constructor|].
  apply (Sorted_merge_sort Z.le).
Qed.

Lemma parse_ports_NoDup text : NoDup (parse_ports text).
Proof.
  unfold parse_ports. case_bool_decide; [constructor|].
  rewrite merge_sort_Permutation. apply NoDup_elements.
Qed.

(** The result is strictly increasing: sorted, and no port twice. *)
Lemma parse_ports_increasing text : StronglySorted Z.lt (parse_ports text).
Proof.
  pose proof (parse_ports_NoDup text) as Hnd.
  assert (StronglySorted Z.le (parse_ports text)) as Hs.
  { apply Sorted_StronglySorted; [intros ???; lia | apply parse_ports_Sorted]. }
  induction Hs as [|x l Hs IH Hall]; [constructor|].
  apply NoDup_cons in Hnd as [Hx Hnd].
  constructor; [by apply IH|].
  rewrite Forall_forall in Hall |- *. intros y Hy.
  assert (x ≠ y) by (intros ->; done).
  specialize (Hall y Hy). lia.
Qed.

(** C2 (the code departs from it): a range whose second number is below 1,
    or whose first number is above 65535, is clamped on one side only, so
    [parse_ports "5-0"] contains port 0 and [parse_ports "65536-65536"]
    contains port 65536: the result is sorted and free of duplicates, but
    not within [1, 65535]. *)
Theorem parse_ports_out_of_range :
  parse_ports "5-0" = [0; 1; 2; 3; 4; 5]
  ∧ parse_ports "65536-65536" = [65535; 65536]
  ∧ ¬ Forall (λ p, 1 ≤ p ≤ 65535) (parse_ports "5-0")
  ∧ ¬ Forall (λ p, 1 ≤ p ≤ 65535) (parse_ports "65536-65536").
Proof.
  assert (parse_ports "5-0" = [0; 1; 2; 3; 4; 5]) as E1 by (vm_compute; reflexivity).
  assert (parse_ports "65536-65536" = [65535; 65536]) as E2 by (vm_compute; reflexivity).
  rewrite E1, E2. repeat split; try reflexivity.
  - intros H. apply Forall_cons in H as [? _]. lia.
  - intros H. apply Forall_cons in H as [_ H]. apply Forall_cons in H as [? _]. lia.
Qed.

(** ** Target parser *)

Section TargetFacts.
Variable ip_network_hosts : string → option (list string).
Variable ipv4_literal ipv6_literal : string → bool.

Abbreviation token_step := (parse_targets_token ip_network_hosts ipv4_literal ipv6_literal).

Lemma append_each (out hosts : list string) :
  foldl (λ o ip, o ++ [ip]) out hosts = out ++ hosts.
Proof.
  revert out. induction hosts as [|h hosts IH]; intros out; simpl.
  - by rewrite app_nil_r.
  - rewrite IH. by rewrite <- app_assoc.
Qed.

Lemma ip_address_rejects_slash t :
  PyStr.contains "/" t = true → ip_address_ok ipv4_literal ipv6_literal t = false.
Proof. intros H. unfold ip_address_ok. by rewrite H. Qed.

Lemma parse_targets_token_dropped out token :
  PyStr.contains "/" (PyStr.strip token) = true →
  ip_network_hosts (PyStr.strip token) = None →
  token_step out token = out.
Proof.
  intros Hs Hn. unfold parse_targets_token. cbv zeta.
  case_bool_decide; [done|].
  by rewrite Hs, Hn, ip_address_rejects_slash.
Qed.

(** What one round of the loop can add to [out]. *)
Lemma parse_targets_token_elem out token x :
  x ∈ token_step out token →
  x ∈ out
  ∨ (x = PyStr.strip token ∧ PyStr.contains "/" x = false)
  ∨ (∃ hosts, ip_network_hosts (PyStr.strip token) = Some hosts ∧ x ∈ hosts).
Proof.
  unfold parse_targets_token. cbv zeta.
  case_bool_decide; [by left|].
  destruct (PyStr.contains "/" (PyStr.strip token)) eqn:Hs.
  - destruct (ip_network_hosts (PyStr.strip token)) as [hosts|] eqn:Hn.
    + rewrite append_each, elem_of_app. intros [?|?]; [by left|].
      right; right. by exists hosts.
    + rewrite ip_address_rejects_slash by done. by left.
  - rewrite elem_of_app, list_elem_of_singleton. intros [?| ->]; [by left|].
    right; left. done.
Qed.

Lemma parse_targets_fold_elem (tokens : list string) out x :
  x ∈ foldl token_step out tokens →
  PyStr.contains "/" x = true →
  x ∈ out
  ∨ ∃ token hosts, token ∈ tokens
      ∧ ip_network_hosts (PyStr.strip token) = Some hosts ∧ x ∈ hosts.
Proof.
  revert out. induction tokens as [|token tokens IH]; intros out; simpl.
  - by left.
  - intros Hx Hs. destruct (IH _ Hx Hs) as [Hin | (tk & hosts & ? & ? & ?)].
    + destruct (parse_targets_token_elem _ _ _ Hin) as [?|[[_ Hno]|(hosts & ? & ?)]].
      * by left.
      * congruence.
      * right. exists token, hosts. split; [left|done].
    + right. exists tk, hosts. split; [by right|done].
Qed.

End TargetFacts.

(** C10: whatever the address library accepts beyond the slash test, a
    token with a slash never validates as a single address; such a token is
    dropped when it is not a network either; and an entry of the result
    that has a slash in it was produced by the expansion of a network,
    never copied from a token. *)
Theorem parse_targets_slash_token
    (ip_network_hosts : string → option (list string))
    (ipv4_literal ipv6_literal : string → bool) :
  (∀ t, PyStr.contains "/" t = true → ip_address_ok ipv4_literal ipv6_literal t = false)
  ∧ (∀ out token,
        PyStr.contains "/" (PyStr.strip token) = true →
        ip_network_hosts (PyStr.strip token) = None →
        parse_targets_token ip_network_hosts ipv4_literal ipv6_literal out token = out)
  ∧ (∀ text x,
        x ∈ parse_targets ip_network_hosts ipv4_literal ipv6_literal text →
        PyStr.contains "/" x = true →
        ∃ token hosts, token ∈ raw_targets text
          ∧ ip_network_hosts (PyStr.strip token) = Some hosts ∧ x ∈ hosts).
Proof.
  split; [|split].
  - apply ip_address_rejects_slash.
  - apply parse_targets_token_dropped.
  - intros text x Hx Hs. unfold parse_targets in Hx.
    destruct (parse_targets_fold_elem _ _ _ _ _ _ Hx Hs) as [Hnil|?]; [|done].
    by apply elem_of_nil in Hnil.
Qed.

(** A fragment of the address library, enough to run the parser: the one
    network [192.168.1.0/30] with its two hosts, and validators that accept
    every text that reaches them. *)
Definition sample_hosts (t : string) : option (list string) :=
  if bool_decide (t = "192.168.1.0/30"%string)
  then Some ["192.168.1.1"; "192.168.1.2"]%string
  else None.

Example parse_targets_sample :
  parse_targets sample_hosts (λ _, true) (λ _, true)
    "10.0.0.5, 192.168.1.0/30;10.0.0.1/xx,, not-an-ip"
  = ["10.0.0.5"; "192.168.1.1"; "192.168.1.2"; "not-an-ip"]%string.
Proof. vm_compute. reflexivity. Qed.

Lemma parse_targets_slash_token_witness :
  ip_address_ok (λ _, true) (λ _, true) "10.0.0.1/xx" = false
  ∧ parse_targets_token sample_hosts (λ _, true) (λ _, true) ["10.0.0.5"%string] " 10.0.0.1/xx"
    = ["10.0.0.5"%string].
Proof.
  split.
  - apply (proj1 (parse_targets_slash_token sample_hosts (λ _, true) (λ _, true))).
    reflexivity.
  - apply (proj1 (proj2 (parse_targets_slash_token sample_hosts (λ _, true) (λ _, true))));
      reflexivity.
Defined.

(** ** Probes *)

(** The probe ends normally, with one of the five states. *)
Definition returns_state (probe : M (string * string)) (w : world) : Prop :=
  ∃ st inf w', probe w = (Ok (st, inf), w') ∧ st ∈ scan_states.

(** An exception of the [try] block comes out as [unknown] with its text,
    in the world the block left once the frame is released. *)
Definition converts_exceptions (body probe : M (string * string)) (w : world) : Prop :=
  ∀ e w', body w = (Raise e, w') →
          probe w = (Ok ("unknown"%string, str_exn e), release_frame w w').

Ltac unfold_M :=
  unfold try_except, unknown_of, raise, mbind, M_bind, mret, M_ret in *.



Ltac in_states := unfold scan_states; repeat first [apply list_elem_of_here | apply list_elem_of_further].

Lemma release_frame_same w w' : next_fd w' = next_fd w → release_frame w w' = w'.
Proof. intros H. unfold release_frame. case_decide; [lia|done]. Qed.

Lemma try_except_converts body w :
  (∀ e w', body w = (Raise e, w') → next_fd w' = next_fd w) →
  converts_exceptions body (try_except body unknown_of) w.
Proof.
  intros Hfd e w' H. rewrite (release_frame_same _ _ (Hfd _ _ H)).
  unfold_M. by rewrite H.
Qed.

Lemma call_converts body w :
  converts_exceptions body (call (try_except body unknown_of)) w.
Proof. intros e w' H. unfold call. unfold_M. by rewrite H. Qed.

Lemma call_returns probe w : returns_state probe w → returns_state (call probe) w.
Proof.
  intros (st & inf & w' & E & Hst). exists st, inf, (release_frame w w').
  split; [|done]. unfold call. by rewrite E.
Qed.

Lemma try_except_returns body w :
  (∀ st inf w', body w = (Ok (st, inf), w') → st ∈ scan_states) →
  returns_state (try_except body unknown_of) w.
Proof.
  intros Hok. unfold returns_state. unfold_M.
  destruct (body w) as [[[st inf]|e] w'] eqn:E.
  - exists st, inf, w'. split; [done|]. by eapply Hok.
  - exists "unknown"%string, (str_exn e), w'. split; [done|]. in_states.
Qed.

Lemma tcp_connect_try_states env t p to w st inf w' :
  tcp_connect_try env t p to w = (Ok (st, inf), w') → st ∈ scan_states.
Proof.
  unfold tcp_connect_try, socket_socket, settimeout, connect_ex, close. unfold_M.
  repeat case_match; intros; simplify_eq; in_states.
Qed.

Lemma tcp_syn_try_states env t p to w st inf w' :
  tcp_syn_try env t p to w = (Ok (st, inf), w') → st ∈ scan_states.
Proof.
  unfold tcp_syn_try, set_conf_verb, sr1. unfold_M.
  repeat case_match; intros; simplify_eq; in_states.
Qed.

Lemma udp_try_states env t p to w st inf w' :
  udp_try env t p to w = (Ok (st, inf), w') → st ∈ scan_states.
Proof.
  unfold udp_try, set_conf_verb, sr1. unfold_M.
  repeat case_match; intros; simplify_eq; in_states.
Qed.

(** The [try] blocks of the packet probes open no socket of their own. *)
Lemma tcp_syn_try_socks env t p to w r w' :
  tcp_syn_try env t p to w = (r, w') → socks w' = socks w ∧ next_fd w' = next_fd w.
Proof.
  unfold tcp_syn_try, set_conf_verb, sr1. unfold_M.
  repeat case_match; intros; simplify_eq; done.
Qed.

Lemma udp_try_socks env t p to w r w' :
  udp_try env t p to w = (r, w') → socks w' = socks w ∧ next_fd w' = next_fd w.
Proof.
  unfold udp_try, set_conf_verb, sr1. unfold_M.
  repeat case_match; intros; simplify_eq; done.
Qed.

Lemma tcp_connect_scan_returns env t p to w :
  returns_state (tcp_connect_scan env t p to) w.
Proof.
  apply call_returns, try_except_returns. intros ???. apply tcp_connect_try_states.
Qed.

Lemma tcp_syn_scan_returns env t p to w :
  returns_state (tcp_syn_scan env t p to) w.
Proof.
  unfold tcp_syn_scan. destruct (SCAPY_AVAILABLE env); simpl.
  - apply try_except_returns. intros ???. apply tcp_syn_try_states.
  - apply tcp_connect_scan_returns.
Qed.

Lemma udp_scan_returns env t p to w :
  returns_state (udp_scan env t p to) w.
Proof.
  unfold udp_scan. destruct (SCAPY_AVAILABLE env); simpl.
  - apply try_except_returns. intros ???. apply udp_try_states.
  - eexists _, _, _. split; [reflexivity|]. in_states.
Qed.

(** The two spellings of [tcp_connect_scan] compute the same. *)
Lemma tcp_connect_try_cli_same env t p to w :
  tcp_connect_try_cli env t p to w = tcp_connect_try env t p to w.
Proof.
  unfold tcp_connect_try_cli, tcp_connect_try.
  unfold socket_socket, settimeout, connect_ex, close. unfold_M.
  repeat case_match; simplify_eq; try reflexivity.
Qed.

Lemma tcp_connect_scan_cli_same env t p to w :
  tcp_connect_scan_cli env t p to w = tcp_connect_scan env t p to w.
Proof.
  unfold tcp_connect_scan_cli, tcp_connect_scan, call, try_except.
  by rewrite tcp_connect_try_cli_same.
Qed.

Lemma tcp_syn_scan_cli_same env t p to w :
  tcp_syn_scan_cli env t p to w = tcp_syn_scan env t p to w.
Proof.
  unfold tcp_syn_scan_cli, tcp_syn_scan.
  destruct (SCAPY_AVAILABLE env); simpl; [done|]. apply tcp_connect_scan_cli_same.
Qed.

(** C4: each of the three probes ends normally from every world, with a
    state of the enumeration, and an exception raised inside its [try]
    block comes out as [unknown] with the exception's text. *)
Theorem probes_never_raise (env : Env) (t : string) (p : Z) (to : Qc) (w : world) :
  returns_state (tcp_connect_scan env t p to) w
  ∧ returns_state (tcp_connect_scan_cli env t p to) w
  ∧ returns_state (tcp_syn_scan env t p to) w
  ∧ returns_state (tcp_syn_scan_cli env t p to) w
  ∧ returns_state (udp_scan env t p to) w
  ∧ converts_exceptions (tcp_connect_try env t p to) (tcp_connect_scan env t p to) w
  ∧ converts_exceptions (tcp_connect_try_cli env t p to) (tcp_connect_scan_cli env t p to) w
  ∧ (SCAPY_AVAILABLE env = true →
     converts_exceptions (tcp_syn_try env t p to) (tcp_syn_scan env t p to) w
     ∧ converts_exceptions (udp_try env t p to) (udp_scan env t p to) w).
Proof.
  split; [apply tcp_connect_scan_returns|].
  split; [unfold returns_state; rewrite tcp_connect_scan_cli_same;
          apply tcp_connect_scan_returns|].
  split; [apply tcp_syn_scan_returns|].
  split; [unfold returns_state; rewrite tcp_syn_scan_cli_same; apply tcp_syn_scan_returns|].
  split; [apply udp_scan_returns|].
  split; [apply call_converts|].
  split; [apply call_converts|].
  intros Hscapy. unfold tcp_syn_scan, udp_scan. rewrite Hscapy.
  split; apply try_except_converts; intros e w' H.
  - by apply tcp_syn_try_socks in H as [_ ?].
  - by apply udp_try_socks in H as [_ ?].
Qed.

(** Sample environments: a host that answers every connection attempt
    with [ev], without or with the packet library. *)
Definition host_env (scapy : bool) (ev : connect_event) (reply : sr1_outcome) : Env :=
  {| SCAPY_AVAILABLE := scapy;
     fd_limit := 1024;
     gaierror := λ t, if bool_decide (t = "no.such.host"%string)
                      then Some "[Errno -2] Name or service not known"%string
                      else None;
     connect_event_of := λ _ _ _, ev;
     sr1_outcome_of := λ _ _, reply |}.

(** A fresh process: no socket open, descriptors 0 to 2 taken. *)
Definition fresh_world : world := World ∅ 3 2.

Lemma probes_never_raise_witness :
  converts_exceptions
    (tcp_syn_try (host_env true Refused (Sr1Raises "Operation not permitted")) "10.0.0.5" 80 2%Qc)
    (tcp_syn_scan (host_env true Refused (Sr1Raises "Operation not permitted")) "10.0.0.5" 80 2%Qc)
    fresh_world
  ∧ returns_state
      (udp_scan (host_env true Refused (Sr1Raises "Operation not permitted")) "10.0.0.5" 80 2%Qc)
      fresh_world.
Proof.
  destruct (probes_never_raise (host_env true Refused (Sr1Raises "Operation not permitted"))
              "10.0.0.5" 80 2%Qc fresh_world) as (_ & _ & _ & _ & Hudp & _ & _ & Hconv).
  split; [apply (Hconv eq_refl) | exact Hudp].
Defined.

(** *** TCP connect *)



(** The [try] block runs to its end only through [connect_ex] and
    [close]: its answer is [open] or [closed] by the connection attempt,
    and its socket is closed. *)
Lemma tcp_connect_try_ok env t p to w r w' :
  tcp_connect_try env t p to w = (Ok r, w') →
  r = (match connect_event_of env t p to with
       | Established => "open"
       | _ => "closed"
       end, "")%string
  ∧ w' = World (delete (next_fd w) (<[next_fd w := Some to]> (<[next_fd w := None]> (socks w))))
               (S (next_fd w)) (conf_verb w).
Proof.
  unfold tcp_connect_try, socket_socket, settimeout, connect_ex, close. unfold_M.
  case_decide; [done|].
  case_decide; [done|].
  case_decide; [done|].
  cbn [socks next_fd conf_verb].
  destruct (gaierror env t); [done|].
  destruct ((p <? 0) || (65535 <? p)); [done|].
  rewrite lookup_insert_eq. cbn [default id].
  destruct (connect_event_of env t p to); cbn; intros; by simplify_eq.
Qed.

(** Where the [try] block raises, its socket is the only one it may have
    left open. *)
Lemma tcp_connect_try_raise env t p to w e w' :
  tcp_connect_try env t p to w = (Raise e, w') →
  (w' = w ∧ (fd_limit env ≤ size (socks w))%nat)
  ∨ (next_fd w' = S (next_fd w)
     ∧ is_Some (socks w' !! next_fd w)
     ∧ delete (next_fd w) (socks w') = delete (next_fd w) (socks w)).
Proof.
  unfold tcp_connect_try, socket_socket, settimeout, connect_ex, close. unfold_M.
  case_decide; [intros; simplify_eq; by left|].
  case_decide.
  { intros; simplify_eq. right. cbn. rewrite lookup_insert_eq, delete_insert_eq. eauto. }
  case_decide.
  { intros; simplify_eq. right. cbn. rewrite lookup_insert_eq, delete_insert_eq. eauto. }
  cbn [socks next_fd conf_verb].
  destruct (gaierror env t).
  { intros; simplify_eq. right. cbn.
    rewrite lookup_insert_eq, !delete_insert_eq. eauto. }
  destruct ((p <? 0) || (65535 <? p)).
  { intros; simplify_eq. right. cbn.
    rewrite lookup_insert_eq, !delete_insert_eq. eauto. }
  rewrite lookup_insert_eq. cbn [default id].
  destruct (connect_event_of env t p to); cbn; intros; simplify_eq.
Qed.









(** *** TCP SYN *)

(** C9: without the packet library [tcp_syn_scan] is [tcp_connect_scan]:
    the same answer and the same effect, in both files. *)
Theorem tcp_syn_scan_without_scapy (env : Env) (t : string) (p : Z) (to : Qc) :
  SCAPY_AVAILABLE env = false →
  tcp_syn_scan env t p to = tcp_connect_scan env t p to
  ∧ tcp_syn_scan_cli env t p to = tcp_connect_scan_cli env t p to.
Proof. intros H. unfold tcp_syn_scan, tcp_syn_scan_cli. by rewrite H. Qed.

Lemma tcp_syn_scan_without_scapy_witness :
  tcp_syn_scan (host_env false Refused Sr1None) "10.0.0.5" 80 2%Qc
  = tcp_connect_scan (host_env false Refused Sr1None) "10.0.0.5" 80 2%Qc
  ∧ tcp_syn_scan_cli (host_env false Refused Sr1None) "10.0.0.5" 80 2%Qc
    = tcp_connect_scan_cli (host_env false Refused Sr1None) "10.0.0.5" 80 2%Qc.
Proof.
  apply (tcp_syn_scan_without_scapy (host_env false Refused Sr1None) "10.0.0.5" 80 2%Qc).
  reflexivity.
Defined.

(** The flag bits of a TCP header. *)
Definition SYN (flags : Z) : bool := Z.testbit flags 1.
Definition RST (flags : Z) : bool := Z.testbit flags 2.
Definition ACK (flags : Z) : bool := Z.testbit flags 4.

Section Masks.

(** A mask of two bits [i] and [j]. *)
Lemma testbit_two_bits i j n :
  0 ≤ i → 0 ≤ j →
  Z.testbit (Z.lor (Z.shiftl 1 i) (Z.shiftl 1 j)) n
  = bool_decide (n = i) || bool_decide (n = j).
Proof.
  intros Hi Hj. rewrite Z.lor_spec.
  assert (∀ k, 0 ≤ k → Z.testbit (Z.shiftl 1 k) n = bool_decide (n = k)) as Hbit.
  { intros k Hk. rewrite Z.shiftl_1_l.
    case_bool_decide as E.
    - subst. by apply Z.pow2_bits_true.
    - apply Z.pow2_bits_false. congruence. }
  by rewrite !Hbit.
Qed.

Lemma land_two_bits flags i j :
  0 ≤ i → 0 ≤ j →
  Z.land flags (Z.lor (Z.shiftl 1 i) (Z.shiftl 1 j)) = Z.lor (Z.shiftl 1 i) (Z.shiftl 1 j)
  ↔ Z.testbit flags i = true ∧ Z.testbit flags j = true.
Proof.
  intros Hi Hj. split.
  - intros E. split.
    + assert (Z.testbit (Z.land flags (Z.lor (Z.shiftl 1 i) (Z.shiftl 1 j))) i = true) as B.
      { rewrite E, testbit_two_bits by done. by rewrite bool_decide_eq_true_2. }
      rewrite Z.land_spec in B. by apply andb_true_iff in B as [? _].
    + assert (Z.testbit (Z.land flags (Z.lor (Z.shiftl 1 i) (Z.shiftl 1 j))) j = true) as B.
      { rewrite E, testbit_two_bits by done.
        rewrite (bool_decide_eq_true_2 (j = j)) by done. apply orb_true_r. }
      rewrite Z.land_spec in B. by apply andb_true_iff in B as [? _].
  - intros [Bi Bj]. apply Z.bits_inj'. intros n _.
    rewrite Z.land_spec, testbit_two_bits by done.
    repeat case_bool_decide; subst; rewrite ?Bi, ?Bj; simpl; auto using andb_false_r.
Qed.

Lemma syn_ack_mask flags :
  (Z.land flags 0x12 =? 0x12) = SYN flags && ACK flags.
Proof.
  pose proof (land_two_bits flags 1 4) as H. change (Z.lor _ _) with 0x12 in H.
  unfold SYN, ACK. destruct (Z.eqb_spec (Z.land flags 0x12) 0x12) as [E|E].
  - apply H in E as [-> ->]; [done|lia|lia].
  - destruct (Z.testbit flags 1) eqn:B1, (Z.testbit flags 4) eqn:B4; try done.
    exfalso. apply E, H; [lia|lia|done].
Qed.

Lemma rst_ack_mask flags :
  (Z.land flags 0x14 =? 0x14) = RST flags && ACK flags.
Proof.
  pose proof (land_two_bits flags 2 4) as H. change (Z.lor _ _) with 0x14 in H.
  unfold RST, ACK. destruct (Z.eqb_spec (Z.land flags 0x14) 0x14) as [E|E].
  - apply H in E as [-> ->]; [done|lia|lia].
  - destruct (Z.testbit flags 2) eqn:B2, (Z.testbit flags 4) eqn:B4; try done.
    exfalso. apply E, H; [lia|lia|done].
Qed.

End Masks.

(** What the [try] block of [tcp_syn_scan] makes of the answer of [sr1]. *)
Lemma tcp_syn_try_reply env t p to w :
  tcp_syn_try env t p to w
  = match sr1_outcome_of env (IP t (TCP_SYN p)) to with
    | Sr1Raises msg => (Raise (Exception msg), World (socks w) (next_fd w) 0)
    | Sr1None => (Ok ("filtered", "Sem resposta")%string, World (socks w) (next_fd w) 0)
    | Sr1Reply resp =>
        (Ok (match tcp_flags resp with
             | Some flags =>
                 if SYN flags && ACK flags then ("open", "")
                 else if RST flags && ACK flags then ("closed", "")
                 else ("filtered", "Resposta inesperada")
             | None => ("filtered", "Resposta inesperada")
             end)%string, World (socks w) (next_fd w) 0)
    end.
Proof.
  unfold tcp_syn_try, set_conf_verb, sr1. unfold_M.
  destruct (sr1_outcome_of env (IP t (TCP_SYN p)) to) as [msg| |resp]; try reflexivity.
  destruct (tcp_flags resp) as [flags|]; [|reflexivity].
  rewrite syn_ack_mask, rst_ack_mask.
  destruct (SYN flags && ACK flags); [reflexivity|].
  destruct (RST flags && ACK flags); reflexivity.
Qed.

(** C5 (as amended): with the packet library, no reply gives [filtered]
    with the text "Sem resposta"; a TCP reply with SYN and ACK set gives
    [open]; a TCP reply with RST and ACK set gives [closed] provided SYN
    and ACK are not both set, that test coming first; every other reply
    gives [filtered] with the text "Resposta inesperada". *)
Theorem tcp_syn_scan_replies (env : Env) (t : string) (p : Z) (to : Qc) (w : world) :
  SCAPY_AVAILABLE env = true →
  (sr1_outcome_of env (IP t (TCP_SYN p)) to = Sr1None →
     (tcp_syn_scan env t p to w).1 = Ok ("filtered", "Sem resposta")%string)
  ∧ (∀ resp flags,
       sr1_outcome_of env (IP t (TCP_SYN p)) to = Sr1Reply resp →
       tcp_flags resp = Some flags →
       SYN flags = true → ACK flags = true →
       (tcp_syn_scan env t p to w).1 = Ok ("open", "")%string)
  ∧ (∀ resp flags,
       sr1_outcome_of env (IP t (TCP_SYN p)) to = Sr1Reply resp →
       tcp_flags resp = Some flags →
       RST flags = true → ACK flags = true → SYN flags && ACK flags = false →
       (tcp_syn_scan env t p to w).1 = Ok ("closed", "")%string)
  ∧ (∀ resp,
       sr1_outcome_of env (IP t (TCP_SYN p)) to = Sr1Reply resp →
       (tcp_flags resp = None
        ∨ ∃ flags, tcp_flags resp = Some flags
                   ∧ SYN flags && ACK flags = false ∧ RST flags && ACK flags = false) →
       (tcp_syn_scan env t p to w).1 = Ok ("filtered", "Resposta inesperada")%string)
  ∧ tcp_syn_scan_cli env t p to w = tcp_syn_scan env t p to w.
Proof.
  intros Hscapy.
  assert (tcp_syn_scan env t p to w = try_except (tcp_syn_try env t p to) unknown_of w) as ->.
  { unfold tcp_syn_scan. by rewrite Hscapy. }
  unfold try_except. rewrite tcp_syn_try_reply.
  split; [|split; [|split; [|split]]].
  - by intros ->.
  - intros resp flags -> -> -> ->. reflexivity.
  - intros resp flags -> -> -> -> Hsa. simpl in *. by rewrite Hsa.
  - intros resp -> [-> | (flags & -> & -> & ->)]; reflexivity.
  - rewrite tcp_syn_scan_cli_same. unfold tcp_syn_scan. rewrite Hscapy. simpl.
    unfold try_except. by rewrite tcp_syn_try_reply.
Qed.

Definition tcp_reply (flags : Z) : sr1_outcome :=
  Sr1Reply {| tcp_flags := Some flags; udp_layer := false |}.
Definition icmp_reply : sr1_outcome :=
  Sr1Reply {| tcp_flags := None; udp_layer := false |}.

Lemma tcp_syn_scan_replies_witness :
  (tcp_syn_scan (host_env true Refused Sr1None) "10.0.0.5" 80 2%Qc fresh_world).1
  = Ok ("filtered", "Sem resposta")%string
  ∧ (tcp_syn_scan (host_env true Refused (tcp_reply 0x12)) "10.0.0.5" 80 2%Qc fresh_world).1
    = Ok ("open", "")%string
  ∧ (tcp_syn_scan (host_env true Refused (tcp_reply 0x14)) "10.0.0.5" 80 2%Qc fresh_world).1
    = Ok ("closed", "")%string
  ∧ (tcp_syn_scan (host_env true Refused icmp_reply) "10.0.0.5" 80 2%Qc fresh_world).1
    = Ok ("filtered", "Resposta inesperada")%string.
Proof.
  split; [|split; [|split]].
  - apply (proj1 (tcp_syn_scan_replies (host_env true Refused Sr1None)
                    "10.0.0.5" 80 2%Qc fresh_world eq_refl)).
    reflexivity.
  - apply (proj1 (proj2 (tcp_syn_scan_replies (host_env true Refused (tcp_reply 0x12))
                    "10.0.0.5" 80 2%Qc fresh_world eq_refl))
             {| tcp_flags := Some 0x12; udp_layer := false |} 0x12); reflexivity.
  - apply (proj1 (proj2 (proj2 (tcp_syn_scan_replies (host_env true Refused (tcp_reply 0x14))
                    "10.0.0.5" 80 2%Qc fresh_world eq_refl)))
             {| tcp_flags := Some 0x14; udp_layer := false |} 0x14); reflexivity.
  - apply (proj1 (proj2 (proj2 (proj2 (tcp_syn_scan_replies (host_env true Refused icmp_reply)
                    "10.0.0.5" 80 2%Qc fresh_world eq_refl))))
             {| tcp_flags := None; udp_layer := false |}); [reflexivity | by left].
Defined.

(** C5 fails as stated: a reply whose flags are SYN, RST and ACK together
    (0x16) has RST and ACK both set, and the probe answers [open], not
    [closed]; and the text that goes with a missing reply is
    "Sem resposta". *)
Lemma tcp_syn_scan_rst_ack_is_open :
  RST 0x16 = true ∧ ACK 0x16 = true
  ∧ (tcp_syn_scan (host_env true Refused Sr1None) "10.0.0.5" 80 2%Qc fresh_world).1
    = Ok ("filtered", "Sem resposta")%string
  ∧ (tcp_syn_scan (host_env true Refused (tcp_reply 0x16)) "10.0.0.5" 80 2%Qc fresh_world).1
    = Ok ("open", "")%string
  ∧ (tcp_syn_scan (host_env true Refused (tcp_reply 0x16)) "10.0.0.5" 80 2%Qc fresh_world).1
    ≠ Ok ("closed", "")%string.
Proof.
  repeat split; try (vm_compute; reflexivity).
  intros H. vm_compute in H. discriminate H.
Qed.

(** ** The worker pool *)

(** The jobs of one target and port. *)
Definition port_jobs (tcp udp : bool) (t : string) (p : Z) : list job :=
  (if tcp then [(t, "tcp"%string, p)] else []) ++ (if udp then [(t, "udp"%string, p)] else []).

Section Queue.
Variables tcp udp : bool.

Lemma enqueue_port_app t q p :
  enqueue_port tcp udp t q p = q ++ port_jobs tcp udp t p.
Proof.
  unfold enqueue_port, port_jobs. destruct tcp, udp; simpl;
    rewrite <- ?app_assoc, ?app_nil_r; reflexivity.
Qed.

Lemma enqueue_target_app ports q t :
  enqueue_target tcp udp ports q t = q ++ (ports ≫= port_jobs tcp udp t).
Proof.
  unfold enqueue_target. revert q.
  induction ports as [|p ports IH]; intros q; csimpl.
  - by rewrite app_nil_r.
  - rewrite IH, enqueue_port_app. by rewrite <- app_assoc.
Qed.

(** The queue is the product of targets, ports and protocols, in that
    nesting. *)
Lemma enqueue_jobs_product targets ports :
  enqueue_jobs tcp udp targets ports
  = targets ≫= (λ t, ports ≫= port_jobs tcp udp t).
Proof.
  unfold enqueue_jobs.
  assert (∀ q, foldl (enqueue_target tcp udp ports) q targets
               = q ++ (targets ≫= (λ t, ports ≫= port_jobs tcp udp t))) as H.
  { induction targets as [|t targets IH]; intros q; csimpl.
    - by rewrite app_nil_r.
    - rewrite IH, enqueue_target_app. by rewrite <- app_assoc. }
  apply (H []).
Qed.

Lemma length_port_jobs t p :
  length (port_jobs tcp udp t p) = enabled_protocols tcp udp.
Proof. unfold port_jobs, enabled_protocols. by destruct tcp, udp. Qed.

Lemma length_enqueue_jobs targets ports :
  length (enqueue_jobs tcp udp targets ports)
  = (length targets * length ports * enabled_protocols tcp udp)%nat.
Proof.
  rewrite enqueue_jobs_product.
  assert (∀ t, length (ports ≫= port_jobs tcp udp t)
               = (length ports * enabled_protocols tcp udp)%nat) as Hp.
  { intros t. induction ports as [|p ps IH]; csimpl; [done|].
    rewrite length_app, IH, length_port_jobs. lia. }
  induction targets as [|t ts IH]; csimpl; [done|].
  rewrite length_app, IH, Hp. lia.
Qed.




End Queue.

(** The job a thread has taken off the queue and not yet answered. *)
Definition holding (p : pc) : list job :=
  match p with
  | StopTest j | Probe j => [j]
  | Append r => [job_of r]
  | LoopTest | GetJob | Exited => []
  end.

Definition in_flight (ths : list pc) : list job := ths ≫= holding.

Lemma in_flight_insert ths i p :
  ths !! i = Some p →
  ∃ others, in_flight ths ≡ₚ holding p ++ others
            ∧ ∀ p', in_flight (<[i := p']> ths) ≡ₚ holding p' ++ others.
Proof.
  intros Hi. exists (in_flight (take i ths) ++ in_flight (drop (S i) ths)).
  pose proof (lookup_lt_Some _ _ _ Hi) as Hlt. unfold in_flight. split.
  - rewrite <- (take_drop_middle ths i p Hi) at 1.
    rewrite bind_app, bind_cons. by rewrite Permutation_app_swap_app.
  - intros p'. rewrite insert_take_drop by done.
    rewrite bind_app, bind_cons. by rewrite Permutation_app_swap_app.
Qed.

Lemma elem_of_insert_inv (ths : list pc) i p q :
  q ∈ <[i := p]> ths → q = p ∨ q ∈ ths.
Proof.
  intros (k & Hk)%list_elem_of_lookup.
  destruct (decide (i = k)) as [->|Hne].
  - destruct (decide (k < length ths)%nat).
    + rewrite list_lookup_insert_eq in Hk by done. left. congruence.
    + rewrite list_insert_ge in Hk by lia. right. by eapply list_elem_of_lookup_2.
  - rewrite list_lookup_insert_ne in Hk by done. right. by eapply list_elem_of_lookup_2.
Qed.

Lemma probe_of_returns env st j w :
  ∃ state info w', probe_of env st j w = (Ok (state, info), w').
Proof.
  destruct j as [[t pr] p]. unfold probe_of.
  repeat case_bool_decide.
  - destruct (tcp_syn_scan_returns env t p (timeout st) w) as (s & i & w' & E & _); eauto.
  - destruct (tcp_connect_scan_returns env t p (timeout st) w) as (s & i & w' & E & _); eauto.
  - destruct (udp_scan_returns env t p (timeout st) w) as (s & i & w' & E & _); eauto.
Qed.

(** What holds of the pool as long as nobody sets the stop flag: every job
    of the queue as it was filled is either answered, in the hands of one
    thread, or still queued; and a thread has exited only on an empty
    queue. *)
Definition pool_inv (jobs : list job) (s : pool) : Prop :=
  stop_event s = false
  ∧ (job_of <$> results s) ++ in_flight (threads s) ++ taskq s ≡ₚ jobs
  ∧ (Exited ∈ threads s → taskq s = []).

Lemma pool_inv_start tcp udp targets ports n w :
  pool_inv (enqueue_jobs tcp udp targets ports) (start_scan tcp udp targets ports n w).
Proof.
  unfold pool_inv, start_scan. cbn [stop_event results threads taskq].
  split; [done|]. split.
  - assert (in_flight (replicate (pool_size n) LoopTest) = []) as ->; [|done].
    unfold in_flight. induction (pool_size n); csimpl; auto.
  - intros H%elem_of_replicate_inv. discriminate.
Qed.

Lemma thread_step_inv env st jobs i s s' :
  pool_inv jobs s →
  thread_step env st i s = Some s' →
  pool_inv jobs s' ∧ length (threads s') = length (threads s).
Proof.
  intros (Hstop & Hperm & Hexit) Hstep. unfold thread_step in Hstep.
  destruct (threads s !! i) as [p|] eqn:Hi; [|done].
  destruct (in_flight_insert _ _ _ Hi) as (others & Hcur & Hnew).
  rewrite Hcur in Hperm.
  destruct p as [| |j|j|r|]; rewrite ?Hstop in Hstep.
  - (* LoopTest *)
    simplify_eq. unfold pool_inv, set_thread; cbn [stop_event results threads taskq].
    rewrite length_insert, Hnew. split; [|done]. split; [done|]. split; [done|].
    intros [?|?]%elem_of_insert_inv; [done | auto].
  - (* GetJob *)
    destruct (taskq s) as [|j q] eqn:Hq; simplify_eq;
      unfold pool_inv, set_thread; cbn [stop_event results threads taskq];
      rewrite length_insert, Hnew; (split; [|done]); (split; [done|]).
    + rewrite Hq. split; [done|]. done.
    + split.
      * rewrite <- Hperm. simpl. by rewrite Permutation_middle.
      * intros [?|Hin]%elem_of_insert_inv; [done|]. by specialize (Hexit Hin).
  - (* StopTest *)
    simplify_eq. unfold pool_inv, set_thread; cbn [stop_event results threads taskq].
    rewrite length_insert, Hnew. split; [|done]. split; [done|]. split; [done|].
    intros [?|?]%elem_of_insert_inv; [done | auto].
  - (* Probe *)
    destruct (probe_of_returns env st j (net s)) as (state & info & w' & E).
    rewrite E in Hstep. simplify_eq.
    unfold pool_inv; cbn [stop_event results threads taskq].
    rewrite length_insert, Hnew. split; [|done]. split; [done|]. split.
    + by destruct j as [[??]?].
    + intros [?|?]%elem_of_insert_inv; [done | auto].
  - (* Append *)
    simplify_eq. unfold pool_inv; cbn [stop_event results threads taskq].
    rewrite length_insert, Hnew. split; [|done]. split; [done|]. split.
    + rewrite <- Hperm, fmap_app. simpl. rewrite <- !app_assoc. done.
    + intros [?|?]%elem_of_insert_inv; [done | auto].
  - done.
Qed.

Lemma pool_run_inv env st jobs evs s s' :
  Stop ∉ evs →
  pool_inv jobs s →
  pool_run env st evs s = Some s' →
  pool_inv jobs s' ∧ length (threads s') = length (threads s).
Proof.
  revert s. induction evs as [|ev evs IH]; intros s Hns Hinv Hrun; simpl in Hrun.
  - by simplify_eq.
  - apply not_elem_of_cons in Hns as [Hev Hns].
    destruct ev as [i| |]; [|done|]; simpl in Hrun.
    + destruct (thread_step env st i s) as [s1|] eqn:Hstep; [|done].
      destruct (thread_step_inv _ _ _ _ _ _ Hinv Hstep) as [Hinv1 Hlen1].
      destruct (IH s1 Hns Hinv1 Hrun) as [? Hlen]. split; [done|]. congruence.
    + apply IH in Hrun; [done..|]. by destruct Hinv as (? & ? & ?).
Qed.

Lemma pool_size_pos n : (0 < pool_size n)%nat.
Proof. unfold pool_size. lia. Qed.

Lemma in_flight_exited ths :
  Forall (λ p, p = Exited) ths → in_flight ths = [].
Proof. unfold in_flight. induction 1 as [|p ths' -> _ IH]; csimpl; auto. Qed.



(** A schedule for two threads that take turns. *)
Definition take_turns (rounds : nat) : list event :=
  mjoin (replicate rounds [Run 0; Run 1]).

Definition connect_settings : settings := {| timeout := 2%Qc; tcp_mode := "connect" |}.




(** *** Every scan can run to completion *)

(** The schedule in which thread 0 answers every job, five steps each, and
    then each thread in turn finds the queue empty and exits. *)
Definition sequential (njobs nthreads : nat) : list event :=
  replicate (5 * njobs) (Run 0) ++ (seq 0 nthreads ≫= λ i, [Run i; Run i]).

Lemma pool_run_app env st evs1 evs2 s :
  pool_run env st (evs1 ++ evs2) s = pool_run env st evs1 s ≫= pool_run env st evs2.
Proof.
  revert s. induction evs1 as [|ev evs1 IH]; intros s; simpl; [done|].
  destruct (pool_step env st ev s); simpl; auto.
Qed.

Lemma pool_run_one_job env st s j q rest :
  stop_event s = false → taskq s = j :: q → threads s = LoopTest :: rest →
  ∃ s1, pool_run env st (replicate 5 (Run 0)) s = Some s1
        ∧ stop_event s1 = false ∧ taskq s1 = q ∧ threads s1 = LoopTest :: rest.
Proof.
  destruct s as [tq un res stop ths w]. simpl. intros -> -> ->.
  unfold thread_step, set_thread. simpl.
  destruct (probe_of_returns env st j w) as (state & info & w' & ->). simpl.
  eexists. split; [reflexivity|]. done.
Qed.

Lemma pool_run_all_jobs env st q : ∀ s rest,
  stop_event s = false → taskq s = q → threads s = LoopTest :: rest →
  ∃ s1, pool_run env st (replicate (5 * length q) (Run 0)) s = Some s1
        ∧ stop_event s1 = false ∧ taskq s1 = [] ∧ threads s1 = LoopTest :: rest.
Proof.
  induction q as [|j q IH]; intros s rest Hstop Hq Hths.
  - exists s. by simpl.
  - replace (5 * length (j :: q))%nat with (5 + 5 * length q)%nat by (simpl; lia).
    rewrite replicate_add, pool_run_app.
    destruct (pool_run_one_job env st s j q rest Hstop Hq Hths) as (s1 & -> & ? & ? & ?).
    simpl. by apply IH.
Qed.

Lemma insert_at_length (ths1 ths2 : list pc) p p' :
  <[length ths1 := p']> (ths1 ++ p :: ths2) = ths1 ++ p' :: ths2.
Proof. rewrite insert_app_r_alt by lia. by rewrite Nat.sub_diag. Qed.

Lemma pool_run_exit env st s ths1 ths2 :
  stop_event s = false → taskq s = [] → threads s = ths1 ++ LoopTest :: ths2 →
  ∃ s1, pool_run env st [Run (length ths1); Run (length ths1)] s = Some s1
        ∧ stop_event s1 = false ∧ taskq s1 = [] ∧ threads s1 = ths1 ++ Exited :: ths2.
Proof.
  destruct s as [tq un res stop ths w]. simpl. intros -> -> ->.
  unfold thread_step, set_thread. cbn [threads stop_event taskq unfinished_tasks results net].
  rewrite list_lookup_middle by done. rewrite insert_at_length.
  cbn [threads stop_event taskq unfinished_tasks results net].
  rewrite list_lookup_middle by done. rewrite insert_at_length.
  eexists. split; [reflexivity|]. done.
Qed.

Lemma pool_run_exits env st k : ∀ n s,
  stop_event s = false → taskq s = [] →
  threads s = replicate n Exited ++ replicate k LoopTest →
  ∃ s1, pool_run env st (seq n k ≫= λ i, [Run i; Run i]) s = Some s1
        ∧ threads s1 = replicate (n + k) Exited.
Proof.
  induction k as [|k IH]; intros n s Hstop Hq Hths.
  - exists s. simpl in *. rewrite app_nil_r in Hths. by rewrite Nat.add_0_r.
  - destruct (pool_run_exit env st s (replicate n Exited) (replicate k LoopTest) Hstop Hq Hths)
      as (s1 & Hrun & Hstop1 & Hq1 & Hths1).
    rewrite length_replicate in Hrun.
    change (seq n (S k) ≫= λ i, [Run i; Run i])
      with ([Run n; Run n] ++ (seq (S n) k ≫= λ i, [Run i; Run i])).
    rewrite pool_run_app, Hrun. simpl.
    replace (n + S k)%nat with (S n + k)%nat by lia.
    apply IH; [done|done|].
    rewrite Hths1, replicate_S_end, <- app_assoc. done.
Qed.

Lemma Stop_not_in_sequential njobs nthreads : Stop ∉ sequential njobs nthreads.
Proof.
  unfold sequential. rewrite elem_of_app. intros [H|H].
  - apply elem_of_replicate_inv in H. discriminate.
  - apply list_elem_of_bind in H as (i & H & _).
    rewrite !elem_of_cons, elem_of_nil in H. destruct_or!; done.
Qed.

(** Whatever the targets, the ports and the number of threads, some
    schedule without [Stop] takes the pool from its start to completion. *)
Lemma scan_can_complete env st tcp udp targets ports n w :
  ∃ evs s', (Stop ∉ evs)
    ∧ pool_run env st evs (start_scan tcp udp targets ports n w) = Some s'
    ∧ completed s'.
Proof.
  set (q := enqueue_jobs tcp udp targets ports).
  exists (sequential (length q) (pool_size n)).
  pose proof (pool_size_pos n) as Hpos.
  destruct (pool_size n) as [|m] eqn:Hm; [lia|].
  destruct (pool_run_all_jobs env st q (start_scan tcp udp targets ports n w)
              (replicate m LoopTest)) as (s1 & Hrun1 & Hstop1 & Hq1 & Hths1).
  { done. } { done. } { unfold start_scan. cbn [threads]. by rewrite Hm. }
  destruct (pool_run_exits env st (S m) 0 s1 Hstop1 Hq1) as (s2 & Hrun2 & Hths2).
  { by rewrite Hths1. }
  exists s2. split; [apply Stop_not_in_sequential|]. split.
  - unfold sequential. rewrite pool_run_app. fold q. by rewrite Hrun1.
  - unfold completed. rewrite Hths2. apply Forall_replicate. done.
Qed.

(** ** Exported files *)

Lemma startswith_app (prefix rest : string) : startswith prefix (prefix +:+ rest) = true.
Proof.
  induction prefix as [|c prefix IH]; simpl; [done|].
  unfold PyStr.eqc. by rewrite bool_decide_eq_true_2.
Qed.

Lemma traduz_estado_injective s1 s2 :
  s1 ∈ scan_states → s2 ∈ scan_states →
  traduz_estado s1 = traduz_estado s2 → s1 = s2.
Proof.
  unfold scan_states. rewrite !elem_of_cons, !elem_of_nil.
  intros H1 H2; destruct_or!; subst; try done; vm_compute; discriminate.
Qed.

Definition csv_header : string := "Alvo,Protocolo,Porta,Estado,Info" +:+ CRLF.

Lemma export_csv_header results filepath text :
  Gui.export_csv results filepath = Some text → startswith csv_header text = true.
Proof.
  unfold Gui.export_csv. repeat case_bool_decide; try done.
  intros [= <-]. apply (startswith_app csv_header).
Qed.

Definition cli_tcp_connect : Cli.args :=
  {| Cli.tcp := true; Cli.udp := false; Cli.syn := false;
     Cli.timeout := 2%Qc; Cli.output := Some "out.txt"%string |}.

(** C8 fails as stated: the file the CLI writes carries the state as the
    probe spells it, [open], where the claim has Aberta; and the text file
    of the GUI begins with its first record, not with a header row. *)
Lemma cli_export_not_localized :
  (Cli.scan (host_env false Established Sr1None) cli_tcp_connect ["10.0.0.5"%string] [80]
     fresh_world).1
  = Ok ["10.0.0.5" +:+ TAB +:+ "TCP" +:+ TAB +:+ "80" +:+ TAB +:+ "open" +:+ TAB]
  ∧ Cli.output_text ["10.0.0.5" +:+ TAB +:+ "TCP" +:+ TAB +:+ "80" +:+ TAB +:+ "open" +:+ TAB]
    = "Alvo" +:+ TAB +:+ "Protocolo" +:+ TAB +:+ "Porta" +:+ TAB +:+ "Estado" +:+ TAB +:+ "Info"
      +:+ LF
      +:+ "10.0.0.5" +:+ TAB +:+ "TCP" +:+ TAB +:+ "80" +:+ TAB +:+ "open" +:+ TAB +:+ LF
  ∧ traduz_estado "open" = "Aberta"%string
  ∧ traduz_estado "open" ≠ "open"%string
  ∧ Gui.export_txt [mkScanResult "10.0.0.5" "tcp" 80 "open" ""] "out.txt"
    = Some ("10.0.0.5" +:+ TAB +:+ "tcp" +:+ TAB +:+ "80" +:+ TAB +:+ "Aberta" +:+ TAB +:+ LF)
  ∧ (∀ text, Gui.export_txt [mkScanResult "10.0.0.5" "tcp" 80 "open" ""] "out.txt" = Some text →
             startswith (txt_header +:+ LF) text = false).
Proof.
  split; [|split; [|split; [|split; [|split]]]]; try (vm_compute; reflexivity).
  - vm_compute. discriminate.
  - intros text H. vm_compute in H. injection H as <-. vm_compute. reflexivity.
Qed.

(** * Further properties of the parsers *)

(** Every character of the text satisfies [P]. *)
Fixpoint str_forall (P : ascii → bool) (s : string) : bool :=
  match s with
  | String c s' => P c && str_forall P s'
  | EmptyString => true
  end.

Definition is_not (ch c : ascii) : bool := negb (PyStr.eqc c ch).

Section Pieces.
Variable P : ascii → bool.

Lemma contains_false_forall ch s :
  PyStr.contains ch s = false ↔ str_forall (is_not ch) s = true.
Proof.
  induction s as [|c s IH]; simpl; [done|]. unfold is_not at 1.
  rewrite orb_false_iff, andb_true_iff, negb_true_iff, IH. done.
Qed.

Lemma str_forall_lstrip sp s :
  str_forall P s = true → str_forall P (PyStr.lstrip_by sp s) = true.
Proof.
  induction s as [|c s IH]; simpl; [done|].
  intros [Hc Hs]%andb_true_iff. destruct (sp c); [auto|].
  simpl. by rewrite Hc, Hs.
Qed.

Lemma str_forall_rstrip sp s :
  str_forall P s = true → str_forall P (PyStr.rstrip_by sp s) = true.
Proof.
  induction s as [|c s IH]; simpl; [done|].
  intros [Hc Hs]%andb_true_iff. specialize (IH Hs).
  destruct (PyStr.rstrip_by sp s) as [|c' r].
  - destruct (sp c); simpl; [done | by rewrite Hc].
  - change (str_forall P (String c (String c' r))) with (P c && str_forall P (String c' r)).
    by rewrite Hc, IH.
Qed.

Lemma str_forall_strip s :
  str_forall P s = true → str_forall P (PyStr.strip s) = true.
Proof. intros H. by apply str_forall_rstrip, str_forall_lstrip. Qed.

Lemma str_forall_re_split cls s :
  str_forall P s = true → Forall (λ piece, str_forall P piece = true) (PyStr.re_split cls s).
Proof.
  induction s as [|c s IH]; simpl; [by repeat constructor|].
  intros [Hc Hs]%andb_true_iff. specialize (IH Hs).
  destruct (cls c).
  - destruct (PyStr.starts_in cls s); [done | by constructor].
  - destruct (PyStr.re_split cls s) as [|h t]; [by repeat constructor; simpl; rewrite Hc|].
    apply Forall_cons in IH as [Hh Ht]. constructor; [|done]. simpl. by rewrite Hc, Hh.
Qed.

Lemma str_forall_split ch s :
  str_forall P s = true → Forall (λ piece, str_forall P piece = true) (PyStr.split ch s).
Proof.
  induction s as [|c s IH]; simpl; [by repeat constructor|].
  intros [Hc Hs]%andb_true_iff. specialize (IH Hs).
  destruct (PyStr.eqc c ch); [by constructor|].
  destruct (PyStr.split ch s) as [|h t]; [by repeat constructor; simpl; rewrite Hc|].
  apply Forall_cons in IH as [Hh Ht]. constructor; [|done]. simpl. by rewrite Hc, Hh.
Qed.

End Pieces.

(** No piece of [re.split] holds a separator character. *)
Lemma re_split_no_separator cls s :
  Forall (λ piece, str_forall (λ c, negb (cls c)) piece = true) (PyStr.re_split cls s).
Proof.
  induction s as [|c s IH]; simpl; [by repeat constructor|].
  destruct (cls c) eqn:Hc.
  - destruct (PyStr.starts_in cls s); [done | by constructor].
  - destruct (PyStr.re_split cls s) as [|h t]; [by repeat constructor; simpl; rewrite Hc|].
    apply Forall_cons in IH as [Hh Ht]. constructor; [|done]. simpl. by rewrite Hc, Hh.
Qed.

(** No piece of [str.split] holds the separator. *)
Lemma split_no_separator ch s :
  Forall (λ piece, PyStr.contains ch piece = false) (PyStr.split ch s).
Proof.
  induction s as [|c s IH]; simpl; [by repeat constructor|].
  destruct (PyStr.eqc c ch) eqn:Hc; [by constructor|].
  destruct (PyStr.split ch s) as [|h t]; [by repeat constructor; simpl; rewrite Hc|].
  apply Forall_cons in IH as [Hh Ht]. constructor; [|done]. simpl. by rewrite Hc, Hh.
Qed.

(** A text without separators is a single piece. *)
Lemma re_split_single cls s :
  str_forall (λ c, negb (cls c)) s = true → PyStr.re_split cls s = [s].
Proof.
  induction s as [|c s IH]; simpl; [done|].
  intros [Hc Hs]%andb_true_iff. apply negb_true_iff in Hc. rewrite Hc, IH; done.
Qed.

Lemma split_single ch s :
  PyStr.contains ch s = false → PyStr.split ch s = [s].
Proof.
  induction s as [|c s IH]; simpl; [done|].
  intros [Hc Hs]%orb_false_iff. rewrite Hc, IH; done.
Qed.

Lemma lstrip_id sp s :
  PyStr.starts_in sp s = false → PyStr.lstrip_by sp s = s.
Proof. destruct s as [|c s]; simpl; [done|]. by intros ->. Qed.

Lemma rstrip_id sp s :
  str_forall (λ c, negb (sp c)) s = true → PyStr.rstrip_by sp s = s.
Proof.
  induction s as [|c s IH]; simpl; [done|].
  intros [Hc Hs]%andb_true_iff. apply negb_true_iff in Hc. rewrite IH by done.
  destruct s; [by rewrite Hc | done].
Qed.

(** *** What [int()] yields *)

Lemma digit_val_range c : PyStr.isdigit c = true → 0 ≤ PyStr.digit_val c ≤ 9.
Proof. unfold PyStr.isdigit, PyStr.digit_val. lia. Qed.

Lemma int_digits_nonneg s : ∀ acc us v,
  0 ≤ acc → PyStr.int_digits acc us s = Some v → 0 ≤ v.
Proof.
  induction s as [|c s IH]; intros acc us v Hacc; simpl.
  - destruct us; [done|]. intros [= <-]. done.
  - destruct (PyStr.isdigit c) eqn:Hd.
    + apply IH. pose proof (digit_val_range c Hd). lia.
    + destruct (PyStr.eqc c "_"); [|done]. destruct us; [done|]. by apply IH.
Qed.

Lemma int_unsigned_nonneg s v : PyStr.int_unsigned s = Some v → 0 ≤ v.
Proof.
  destruct s as [|c s]; simpl; [done|].
  destruct (PyStr.isdigit c) eqn:Hd; [|done].
  apply int_digits_nonneg. by apply digit_val_range.
Qed.

(** Without a minus sign in the text the number is not negative. *)
Lemma int_nonneg s v :
  PyStr.contains "-" s = false → PyStr.int s = Some v → 0 ≤ v.
Proof.
  intros Hno. unfold PyStr.int.
  assert (PyStr.contains "-" (PyStr.rstrip_by PyStr.c_isspace
            (PyStr.lstrip_by PyStr.c_isspace s)) = false) as Hno'.
  { apply contains_false_forall, str_forall_rstrip, str_forall_lstrip.
    by apply contains_false_forall. }
  destruct (PyStr.rstrip_by _ _) as [|c s']; [done|].
  simpl in Hno'. apply orb_false_iff in Hno' as [Hc _]. rewrite Hc.
  destruct (PyStr.eqc c "+"); apply int_unsigned_nonneg.
Qed.

Lemma int_digits_has_digit s : ∀ acc v,
  str_forall (λ c, negb (PyStr.isdigit c)) s = true →
  PyStr.int_digits acc true s = Some v → False.
Proof.
  destruct s as [|c s]; intros acc v; simpl; [done|].
  intros [Hc _]%andb_true_iff. apply negb_true_iff in Hc. rewrite Hc.
  by destruct (PyStr.eqc c "_").
Qed.

(** A text without a digit is no number. *)
Lemma int_needs_digit s :
  str_forall (λ c, negb (PyStr.isdigit c)) s = true → PyStr.int s = None.
Proof.
  intros Hno. unfold PyStr.int.
  assert (str_forall (λ c, negb (PyStr.isdigit c))
            (PyStr.rstrip_by PyStr.c_isspace (PyStr.lstrip_by PyStr.c_isspace s)) = true) as Hno'.
  { by apply str_forall_rstrip, str_forall_lstrip. }
  destruct (PyStr.rstrip_by _ _) as [|c s']; [done|].
  simpl in Hno'. apply andb_true_iff in Hno' as [Hc Hs'].
  assert (PyStr.int_unsigned s' = None) as Hu.
  { destruct s' as [|c' s'']; simpl; [done|].
    simpl in Hs'. apply andb_true_iff in Hs' as [Hc' _].
    apply negb_true_iff in Hc'. by rewrite Hc'. }
  rewrite Hu. simpl. apply negb_true_iff in Hc. rewrite Hc.
  by repeat case_match.
Qed.

(** *** Port parser *)

Lemma add_range_union ports lo hi :
  add_range ports lo hi = ports ∪ add_range ∅ lo hi.
Proof.
  apply set_eq. intros x. rewrite elem_of_union, !elem_of_add_range.
  rewrite elem_of_empty. tauto.
Qed.

(** What a token adds does not depend on the ports collected before. *)
Lemma parse_ports_token_union (ports : gset Z) p :
  parse_ports_token ports p = ports ∪ parse_ports_token ∅ p.
Proof.
  unfold parse_ports_token.
  case_bool_decide; [by rewrite union_empty_r_L|].
  destruct (PyStr.contains "-" p).
  - destruct (PyStr.split "-" p) as [|sa [|sb [|? ?]]]; try by rewrite union_empty_r_L.
    destruct (PyStr.int sa) as [a|]; [|by rewrite union_empty_r_L].
    destruct (PyStr.int sb) as [b|]; [|by rewrite union_empty_r_L].
    apply add_range_union.
  - destruct (PyStr.int p) as [val|]; [|by rewrite union_empty_r_L].
    destruct ((1 <=? val) && (val <=? 65535)); [|by rewrite union_empty_r_L].
    rewrite union_empty_r_L. apply union_comm_L.
Qed.

Lemma elem_of_parse_ports_fold (parts : list string) : ∀ (ports : gset Z) x,
  x ∈ foldl parse_ports_token ports parts
  ↔ x ∈ ports ∨ ∃ p, p ∈ parts ∧ x ∈ parse_ports_token ∅ p.
Proof.
  induction parts as [|p parts IH]; intros ports x; simpl.
  - split; [by left|]. intros [?|(p & Hp & _)]; [done|]. by apply elem_of_nil in Hp.
  - rewrite IH, parse_ports_token_union, elem_of_union. split.
    + intros [[?|?]|(q & ? & ?)]; [by left| |].
      * right. exists p. split; [left|done].
      * right. exists q. split; [by right|done].
    + intros [?|(q & Hq & ?)]; [by left; left|].
      apply elem_of_cons in Hq as [->|?]; [by left; right|].
      right. by exists q.
Qed.

Definition port_parts (text : string) : list string :=
  PyStr.re_split port_sep (PyStr.strip text).

Lemma elem_of_parse_ports (text : string) (x : Z) :
  x ∈ parse_ports text ↔ ∃ p, p ∈ port_parts text ∧ x ∈ parse_ports_token ∅ p.
Proof.
  unfold parse_ports, port_parts. case_bool_decide as He.
  - subst text. rewrite elem_of_nil. split; [done|].
    intros (p & Hp & Hx). change (p ∈ [EmptyString]) in Hp.
    apply list_elem_of_singleton in Hp as ->.
    change (x ∈ (∅ : gset Z)) in Hx. by apply not_elem_of_empty in Hx.
  - cbv zeta. rewrite merge_sort_Permutation, elem_of_elements, elem_of_parse_ports_fold.
    rewrite elem_of_empty. tauto.
Qed.

(** X2: the result is the union of what the tokens yield one by one: a
    port is returned exactly when some token of the text yields it; so two
    texts with the same tokens, in whatever order and however often
    repeated, give the same list. *)
Theorem parse_ports_union (text : string) :
  (∀ x, x ∈ parse_ports text ↔ ∃ p, p ∈ port_parts text ∧ x ∈ parse_ports_token ∅ p)
  ∧ (∀ text', (∀ p, p ∈ port_parts text ↔ p ∈ port_parts text') →
              parse_ports text = parse_ports text').
Proof.
  split; [apply elem_of_parse_ports|].
  intros text' Hsame.
  apply (StronglySorted_unique Z.le).
  - apply Sorted_StronglySorted; [intros ???; lia | apply parse_ports_Sorted].
  - apply Sorted_StronglySorted; [intros ???; lia | apply parse_ports_Sorted].
  - apply NoDup_Permutation; [apply parse_ports_NoDup | apply parse_ports_NoDup |].
    intros x. rewrite !elem_of_parse_ports. by setoid_rewrite Hsame.
Qed.

Lemma parse_ports_union_witness :
  parse_ports "80,22,80 443" = parse_ports "443;22;80".
Proof.
  apply (proj2 (parse_ports_union "80,22,80 443")).
  intros p.
  replace (port_parts "80,22,80 443") with ["80"; "22"; "80"; "443"]%string
    by (vm_compute; reflexivity).
  replace (port_parts "443;22;80") with ["443"; "22"; "80"]%string
    by (vm_compute; reflexivity).
  rewrite !elem_of_cons, !elem_of_nil. tauto.
Defined.

(** The ports of a token without a dash are valid port numbers. *)
Lemma parse_ports_token_plain p x :
  PyStr.contains "-" p = false → x ∈ parse_ports_token ∅ p → 1 ≤ x ≤ 65535.
Proof.
  intros Hno. unfold parse_ports_token. rewrite Hno.
  case_bool_decide; [by intros ?%not_elem_of_empty|].
  destruct (PyStr.int p) as [val|]; [|by intros ?%not_elem_of_empty].
  destruct ((1 <=? val) && (val <=? 65535)) eqn:Hr; [|by intros ?%not_elem_of_empty].
  rewrite elem_of_union, elem_of_singleton, elem_of_empty. intros [->|[]]. lia.
Qed.

(** The ports of any token are not negative. *)
Lemma parse_ports_token_nonneg p x :
  x ∈ parse_ports_token ∅ p → 0 ≤ x.
Proof.
  destruct (PyStr.contains "-" p) eqn:Hc.
  - unfold parse_ports_token. rewrite Hc.
    case_bool_decide; [by intros ?%not_elem_of_empty|].
    pose proof (split_no_separator "-" p) as Hpieces.
    destruct (PyStr.split "-" p) as [|sa [|sb [|? ?]]];
      try by intros ?%not_elem_of_empty.
    apply Forall_cons in Hpieces as [Ha Hpieces]. apply Forall_cons in Hpieces as [Hb _].
    destruct (PyStr.int sa) as [a|] eqn:Ea; [|by intros ?%not_elem_of_empty].
    destruct (PyStr.int sb) as [b|] eqn:Eb; [|by intros ?%not_elem_of_empty].
    pose proof (int_nonneg _ _ Ha Ea). pose proof (int_nonneg _ _ Hb Eb).
    cbv zeta. rewrite elem_of_add_range, elem_of_empty.
    destruct (Z.ltb_spec a 1), (Z.ltb_spec 65535 b); lia.
  - intros Hx. pose proof (parse_ports_token_plain p x Hc Hx). lia.
Qed.

(** X3: a port text without a dash yields valid port numbers only. *)
Theorem parse_ports_plain_in_range (text : string) :
  PyStr.contains "-" text = false →
  Forall (λ p, 1 ≤ p ≤ 65535) (parse_ports text).
Proof.
  intros Hno. apply Forall_forall. intros x (p & Hp & Hx)%elem_of_parse_ports.
  apply (parse_ports_token_plain p x); [|done].
  apply contains_false_forall.
  assert (Forall (λ piece, str_forall (is_not "-") piece = true) (port_parts text)) as Hall.
  { apply str_forall_re_split, str_forall_strip. by apply contains_false_forall. }
  rewrite Forall_forall in Hall. by apply Hall.
Qed.

Lemma parse_ports_plain_in_range_witness :
  Forall (λ p, 1 ≤ p ≤ 65535) (parse_ports "0, 22;80 70000,443,x").
Proof. apply parse_ports_plain_in_range. reflexivity. Defined.

(** X4: whatever the text, no returned port is negative: a range can
    reach down to 0 and up beyond 65535, never below 0. *)
Theorem parse_ports_nonneg (text : string) :
  Forall (λ p, 0 ≤ p) (parse_ports text).
Proof.
  apply Forall_forall. intros x (p & Hp & Hx)%elem_of_parse_ports.
  by apply (parse_ports_token_nonneg p).
Qed.

(** X5: a text without a digit yields no port. *)
Theorem parse_ports_needs_digit (text : string) :
  str_forall (λ c, negb (PyStr.isdigit c)) text = true →
  parse_ports text = [].
Proof.
  intros Hno.
  assert (∀ x, x ∉ parse_ports text) as Hnone.
  { intros x (p & Hp & Hx)%elem_of_parse_ports.
    assert (str_forall (λ c, negb (PyStr.isdigit c)) p = true) as Hp'.
    { assert (Forall (λ piece, str_forall (λ c, negb (PyStr.isdigit c)) piece = true)
                (port_parts text)) as Hall
        by (by apply str_forall_re_split, str_forall_strip).
      rewrite Forall_forall in Hall. by apply Hall. }
    revert Hx. unfold parse_ports_token.
    case_bool_decide; [by intros ?%not_elem_of_empty|].
    destruct (PyStr.contains "-" p).
    - pose proof (str_forall_split _ "-" p Hp') as Hpieces.
      destruct (PyStr.split "-" p) as [|sa [|sb [|? ?]]];
        try by intros ?%not_elem_of_empty.
      apply Forall_cons in Hpieces as [Ha _].
      rewrite (int_needs_digit sa Ha). by intros ?%not_elem_of_empty.
    - rewrite (int_needs_digit p Hp'). by intros ?%not_elem_of_empty. }
  destruct (parse_ports text) as [|x l]; [done|].
  exfalso. apply (Hnone x). left.
Qed.

Lemma parse_ports_needs_digit_witness :
  parse_ports " , ;-; http-https , x" = [].
Proof. apply parse_ports_needs_digit. reflexivity. Defined.

(** *** Printing a number and reading it back *)

Lemma code_digit d :
  0 ≤ d ≤ 9 → PyStr.code (ascii_of_nat (Z.to_nat (48 + d))) = 48 + d.
Proof.
  intros Hd. unfold PyStr.code. rewrite nat_ascii_embedding by lia. lia.
Qed.

Lemma digit_plain c :
  PyStr.isdigit c = true →
  PyStr.c_isspace c = false ∧ PyStr.isspace c = false
  ∧ PyStr.eqc c "-" = false ∧ PyStr.eqc c "+" = false ∧ port_sep c = false.
Proof.
  intros Hd.
  assert (∀ c', PyStr.isdigit c' = false → PyStr.eqc c c' = false) as Hne.
  { intros c' Hc'. unfold PyStr.eqc. apply bool_decide_eq_false. congruence. }
  assert (PyStr.isspace c = false) as Hsp.
  { unfold PyStr.isspace, PyStr.isdigit in *. lia. }
  split; [unfold PyStr.c_isspace, PyStr.isdigit in *; lia|]. split; [done|].
  split; [by apply Hne|]. split; [by apply Hne|].
  unfold port_sep. rewrite Hsp, !Hne; done.
Qed.

Lemma digits_of_digits fuel : ∀ n acc,
  0 ≤ n → str_forall PyStr.isdigit acc = true →
  str_forall PyStr.isdigit (PyStr.digits_of fuel n acc) = true.
Proof.
  induction fuel as [|fuel IH]; intros n acc Hn Hacc; simpl; [done|].
  assert (str_forall PyStr.isdigit
            (String (ascii_of_nat (Z.to_nat (48 + n mod 10))) acc) = true) as Hacc'.
  { simpl. rewrite Hacc, andb_true_r. unfold PyStr.isdigit.
    pose proof (Z.mod_pos_bound n 10).
    rewrite code_digit by lia. lia. }
  destruct (n <? 10); [done|]. apply IH; [|done]. apply Z.div_pos; lia.
Qed.

Lemma digits_of_S fuel n acc :
  PyStr.digits_of (S fuel) n acc
  = if n <? 10 then String (ascii_of_nat (Z.to_nat (48 + n mod 10))) acc
    else PyStr.digits_of fuel (n / 10) (String (ascii_of_nat (Z.to_nat (48 + n mod 10))) acc).
Proof. reflexivity. Qed.

Lemma digits_of_nonempty fuel : ∀ n acc,
  acc ≠ EmptyString → PyStr.digits_of fuel n acc ≠ EmptyString.
Proof.
  induction fuel as [|fuel IH]; intros n acc Hacc; [done|].
  rewrite digits_of_S. destruct (n <? 10); [done|]. by apply IH.
Qed.

Lemma digits_of_value fuel : ∀ n acc,
  0 ≤ n < 10 ^ Z.of_nat (S fuel) →
  PyStr.int_digits 0 false (PyStr.digits_of (S fuel) n acc) = PyStr.int_digits n false acc.
Proof.
  induction fuel as [|fuel IH]; intros n acc Hn.
  - change (10 ^ Z.of_nat 1) with 10 in Hn. simpl.
    replace (n <? 10) with true by lia.
    rewrite Z.mod_small by lia. simpl.
    unfold PyStr.isdigit, PyStr.digit_val. rewrite code_digit by lia.
    replace ((48 <=? 48 + n) && (48 + n <=? 57)) with true by lia.
    f_equal. lia.
  - rewrite (digits_of_S (S fuel)). destruct (Z.ltb_spec n 10) as [Hlt|Hge].
    + simpl. rewrite Z.mod_small by lia.
      unfold PyStr.isdigit, PyStr.digit_val. rewrite code_digit by lia.
      replace ((48 <=? 48 + n) && (48 + n <=? 57)) with true by lia.
      f_equal. lia.
    + rewrite IH.
      * simpl. pose proof (Z.mod_pos_bound n 10).
        unfold PyStr.isdigit, PyStr.digit_val. rewrite code_digit by lia.
        replace ((48 <=? 48 + n mod 10) && (48 + n mod 10 <=? 57)) with true by lia.
        f_equal. pose proof (Z.div_mod n 10). lia.
      * split; [apply Z.div_pos; lia|].
        apply Z.div_lt_upper_bound; [lia|].
        replace (Z.of_nat (S (S fuel))) with (Z.succ (Z.of_nat (S fuel))) in Hn by lia.
        rewrite Z.pow_succ_r in Hn by lia. lia.
Qed.

Lemma digits_fuel n :
  0 ≤ n → n < 10 ^ Z.of_nat (S (Z.to_nat (Z.log2 n))).
Proof.
  intros Hn. replace (Z.of_nat (S (Z.to_nat (Z.log2 n)))) with (Z.succ (Z.log2 n))
    by (pose proof (Z.log2_nonneg n); lia).
  destruct (decide (n = 0)) as [->|Hne]; [done|].
  pose proof (Z.log2_spec n) as [_ Hlt]; [lia|].
  eapply Z.lt_le_trans; [exact Hlt|].
  apply Z.pow_le_mono_l. lia.
Qed.

(** The decimal text of a number that is not negative: digits only, at
    least one, and [int()] reads the number back. *)
Lemma str_of_int_digits n :
  0 ≤ n →
  str_forall PyStr.isdigit (PyStr.str_of_int n) = true
  ∧ PyStr.str_of_int n ≠ EmptyString
  ∧ PyStr.int (PyStr.str_of_int n) = Some n.
Proof.
  intros Hn. unfold PyStr.str_of_int. replace (n <? 0) with false by lia.
  set (fuel := Z.to_nat (Z.log2 n)).
  pose proof (digits_of_digits (S fuel) n EmptyString Hn eq_refl) as Hd.
  pose proof (digits_of_value fuel n EmptyString) as Hv.
  destruct (PyStr.digits_of (S fuel) n EmptyString) as [|c r] eqn:E.
  { exfalso. rewrite digits_of_S in E. destruct (n <? 10); [done|].
    by apply digits_of_nonempty in E. }
  split; [done|]. split; [done|].
  simpl in Hd. apply andb_true_iff in Hd as [Hc Hr].
  destruct (digit_plain c Hc) as (Hcsp & _ & Hminus & Hplus & _).
  unfold PyStr.int.
  rewrite lstrip_id by (simpl; done).
  rewrite rstrip_id.
  - rewrite Hminus, Hplus. simpl. rewrite Hc.
    simpl in Hv. rewrite Hc in Hv. rewrite Z.mul_0_r, Z.add_0_l in Hv.
    rewrite Hv; [done|]. split; [done|]. by apply digits_fuel.
  - simpl. rewrite Hcsp. simpl.
    clear -Hr. induction r as [|c' r IH]; simpl; [done|].
    simpl in Hr. apply andb_true_iff in Hr as [Hc' Hr].
    destruct (digit_plain c' Hc') as (-> & _). simpl. by apply IH.
Qed.

Lemma str_forall_impl (P Q : ascii → bool) s :
  (∀ c, P c = true → Q c = true) → str_forall P s = true → str_forall Q s = true.
Proof.
  intros HPQ. induction s as [|c s IH]; simpl; [done|].
  intros [Hc Hs]%andb_true_iff. by rewrite (HPQ c Hc), IH.
Qed.

(** A text that is one token. *)
Lemma parse_ports_one_token s :
  s ≠ EmptyString →
  str_forall (λ c, negb (port_sep c)) s = true →
  parse_ports s = merge_sort Z.le (elements (parse_ports_token ∅ s)).
Proof.
  intros Hne Hplain. unfold parse_ports. rewrite bool_decide_eq_false_2 by done.
  assert (str_forall (λ c, negb (PyStr.isspace c)) s = true) as Hnsp.
  { revert Hplain. apply str_forall_impl. intros c. unfold port_sep.
    destruct (PyStr.isspace c); simpl; done. }
  assert (PyStr.strip s = s) as ->.
  { unfold PyStr.strip. rewrite lstrip_id, rstrip_id; [done|done|].
    destruct s as [|c s]; [done|]. simpl in *.
    apply andb_true_iff in Hnsp as [Hc _]. by apply negb_true_iff in Hc. }
  cbv zeta. by rewrite re_split_single.
Qed.

(** X6: the decimal text of a number is read back as that port when it is
    a valid port, and as nothing otherwise (a negative number reads as a
    range with an empty left side). *)
Theorem parse_ports_of_number (n : Z) :
  parse_ports (PyStr.str_of_int n) = if (1 <=? n) && (n <=? 65535) then [n] else [].
Proof.
  destruct (Z.ltb_spec n 0) as [Hneg|Hpos].
  - (* a minus sign and digits *)
    replace ((1 <=? n) && (n <=? 65535)) with false by lia.
    unfold PyStr.str_of_int. replace (n <? 0) with true by lia.
    set (ds := PyStr.digits_of _ _ _).
    assert (str_forall PyStr.isdigit ds = true) as Hds
      by (apply digits_of_digits; [lia|done]).
    rewrite parse_ports_one_token; [|done|].
    + unfold parse_ports_token. rewrite bool_decide_eq_false_2 by done.
      change (PyStr.contains "-" (String "-" ds)) with true. cbv iota.
      change (PyStr.split "-" (String "-" ds)) with (EmptyString :: PyStr.split "-" ds).
      rewrite split_single; [done|].
      apply contains_false_forall. revert Hds. apply str_forall_impl.
      intros c Hc. unfold is_not. by destruct (digit_plain c Hc) as (_ & _ & -> & _).
    + change (str_forall (λ c, negb (port_sep c)) ds = true).
      revert Hds. apply str_forall_impl.
      intros c Hc. by destruct (digit_plain c Hc) as (_ & _ & _ & _ & ->).
  - destruct (str_of_int_digits n Hpos) as (Hds & Hne & Hint).
    rewrite parse_ports_one_token; [|done|].
    + unfold parse_ports_token. rewrite bool_decide_eq_false_2 by done.
      assert (PyStr.contains "-" (PyStr.str_of_int n) = false) as ->.
      { apply contains_false_forall. revert Hds. apply str_forall_impl.
        intros c Hc. unfold is_not. by destruct (digit_plain c Hc) as (_ & _ & -> & _). }
      rewrite Hint. destruct ((1 <=? n) && (n <=? 65535)).
      * rewrite union_empty_r_L, elements_singleton. reflexivity.
      * rewrite elements_empty. reflexivity.
    + revert Hds. apply str_forall_impl.
      intros c Hc. by destruct (digit_plain c Hc) as (_ & _ & _ & _ & ->).
Qed.

(** *** Target parser *)

(** X7: on a text without a slash the address library is never asked: the
    result is the list of the non-empty stripped tokens, in their order,
    duplicates kept. *)
Theorem parse_targets_without_slash
    (ip_network_hosts : string → option (list string))
    (ipv4_literal ipv6_literal : string → bool) (text : string) :
  PyStr.contains "/" text = false →
  parse_targets ip_network_hosts ipv4_literal ipv6_literal text
  = filter (λ t, t ≠ EmptyString) (PyStr.strip <$> raw_targets text).
Proof.
  intros Hno. unfold parse_targets.
  assert (Forall (λ token, PyStr.contains "/" (PyStr.strip token) = false) (raw_targets text))
    as Hall.
  { unfold raw_targets.
    eapply Forall_impl;
      [apply (str_forall_re_split (is_not "/")), str_forall_strip;
       by apply contains_false_forall|].
    intros token Htok. simpl. by apply contains_false_forall, str_forall_strip. }
  assert (∀ out, foldl (parse_targets_token ip_network_hosts ipv4_literal ipv6_literal) out
                   (raw_targets text)
                 = out ++ filter (λ t, t ≠ EmptyString) (PyStr.strip <$> raw_targets text)) as H.
  { induction Hall as [|token tokens Htok _ IH]; intros out; simpl.
    - by rewrite app_nil_r.
    - rewrite IH. unfold parse_targets_token at 1. cbv zeta. rewrite Htok.
      rewrite filter_cons. case_bool_decide as He; case_decide as Hd; try done.
      by rewrite <- app_assoc. }
  apply (H []).
Qed.

Lemma parse_targets_without_slash_witness :
  parse_targets (λ _, None) (λ _, false) (λ _, false)
    "10.0.0.5, host.example;;10.0.0.5"
  = ["10.0.0.5"; "host.example"; "10.0.0.5"]%string.
Proof.
  rewrite parse_targets_without_slash by reflexivity.
  vm_compute. reflexivity.
Defined.

(** X8: an entry of the result is either a host of an expanded network or
    one token of the text with the white space around it removed; such an
    entry is not empty and holds no slash, comma, semicolon or line
    break. *)
Theorem parse_targets_entries
    (ip_network_hosts : string → option (list string))
    (ipv4_literal ipv6_literal : string → bool) (text x : string) :
  x ∈ parse_targets ip_network_hosts ipv4_literal ipv6_literal text →
  (∃ token hosts, token ∈ raw_targets text
      ∧ ip_network_hosts (PyStr.strip token) = Some hosts ∧ x ∈ hosts)
  ∨ (∃ token, token ∈ raw_targets text ∧ x = PyStr.strip token
      ∧ x ≠ EmptyString ∧ PyStr.contains "/" x = false
      ∧ str_forall (λ c, negb (target_sep c)) x = true).
Proof.
  unfold parse_targets.
  assert (∀ tokens out,
            Forall (λ piece, str_forall (λ c, negb (target_sep c)) piece = true) tokens →
            x ∈ foldl (parse_targets_token ip_network_hosts ipv4_literal ipv6_literal) out tokens →
            x ∈ out
            ∨ (∃ token hosts, token ∈ tokens
                 ∧ ip_network_hosts (PyStr.strip token) = Some hosts ∧ x ∈ hosts)
            ∨ (∃ token, token ∈ tokens ∧ x = PyStr.strip token
                 ∧ x ≠ EmptyString ∧ PyStr.contains "/" x = false
                 ∧ str_forall (λ c, negb (target_sep c)) x = true)) as H.
  { induction tokens as [|token tokens IH]; intros out Hall; simpl; [by left|].
    apply Forall_cons in Hall as [Htok Hall]. intros Hx.
    destruct (IH _ Hall Hx) as [Hin|[(tk & hosts & ? & ? & ?)|(tk & ? & ? & ? & ? & ?)]].
    - revert Hin. unfold parse_targets_token. cbv zeta.
      case_bool_decide as He; [by left|].
      destruct (PyStr.contains "/" (PyStr.strip token)) eqn:Hs.
      + destruct (ip_network_hosts (PyStr.strip token)) as [hosts|] eqn:Hn.
        * rewrite append_each, elem_of_app. intros [?|?]; [by left|].
          right; left. exists token, hosts. split; [left|done].
        * rewrite ip_address_rejects_slash by done. by left.
      + rewrite elem_of_app, list_elem_of_singleton. intros [?| ->]; [by left|].
        right; right. exists token. split; [left|]. split; [done|]. split; [done|].
        split; [done|]. by apply str_forall_strip.
    - right; left. exists tk, hosts. split; [by right|done].
    - right; right. exists tk. split; [by right|done]. }
  intros Hx. destruct (H (raw_targets text) [] (re_split_no_separator _ _) Hx) as [Hnil|?];
    [|done].
  by apply elem_of_nil in Hnil.
Qed.

Lemma parse_targets_entries_witness :
  (∃ token hosts, token ∈ raw_targets "192.168.1.0/30, gateway "
      ∧ sample_hosts (PyStr.strip token) = Some hosts ∧ "gateway"%string ∈ hosts)
  ∨ (∃ token, token ∈ raw_targets "192.168.1.0/30, gateway "
      ∧ "gateway"%string = PyStr.strip token
      ∧ "gateway"%string ≠ EmptyString ∧ PyStr.contains "/" "gateway" = false
      ∧ str_forall (λ c, negb (target_sep c)) "gateway" = true).
Proof.
  apply (parse_targets_entries sample_hosts (λ _, true) (λ _, true)).
  vm_compute. repeat constructor.
Defined.

(** * Further properties of the probes *)

(** The probe ends normally with one of the given states. *)
Definition answers_in (states : list string) (probe : M (string * string)) (w : world) : Prop :=
  ∃ st inf w', probe w = (Ok (st, inf), w') ∧ st ∈ states.

Ltac unfold_probes :=
  unfold tcp_syn_scan, udp_scan, tcp_connect_scan, call, tcp_syn_try, udp_try,
    tcp_connect_try, socket_socket, settimeout, connect_ex, close, set_conf_verb, sr1;
  unfold_M.

Ltac in_list := repeat first [apply list_elem_of_here | apply list_elem_of_further].

(** X10: the TCP connect probe never answers [filtered] or
    [open|filtered]; the SYN probe never answers [open|filtered]; the UDP
    probe never answers [closed]. *)
Theorem probe_state_ranges (env : Env) (t : string) (p : Z) (to : Qc) (w : world) :
  answers_in ["open"; "closed"; "unknown"]%string (tcp_connect_scan env t p to) w
  ∧ answers_in ["open"; "closed"; "filtered"; "unknown"]%string (tcp_syn_scan env t p to) w
  ∧ answers_in ["open"; "filtered"; "open|filtered"; "unknown"]%string (udp_scan env t p to) w.
Proof.
  unfold answers_in. split; [|split]; unfold_probes;
    repeat case_match; simplify_eq; eexists _, _, _; (split; [reflexivity | in_list]).
Qed.

(** X11: an answer [open] or [closed] comes with an empty diagnostic, an
    answer [filtered] or [open|filtered] with a diagnostic that is not
    empty, from each of the three probes. *)
Theorem probe_diagnostics (env : Env) (t : string) (p : Z) (to : Qc) (w : world)
    (probe : M (string * string)) (st inf : string) (w' : world) :
  probe = tcp_connect_scan env t p to ∨ probe = tcp_syn_scan env t p to
  ∨ probe = udp_scan env t p to →
  probe w = (Ok (st, inf), w') →
  (st = "open"%string ∨ st = "closed"%string → inf = EmptyString)
  ∧ (st = "filtered"%string ∨ st = "open|filtered"%string → inf ≠ EmptyString).
Proof.
  intros [-> | [-> | ->]]; unfold_probes;
    repeat case_match; intros; simplify_eq; (split; intros [?|?]; done).
Qed.

Lemma probe_diagnostics_witness :
  ("filtered"%string = "open"%string ∨ "filtered"%string = "closed"%string
   → "Sem resposta"%string = EmptyString)
  ∧ ("filtered"%string = "filtered"%string ∨ "filtered"%string = "open|filtered"%string
     → "Sem resposta"%string ≠ EmptyString).
Proof.
  apply (probe_diagnostics (host_env true Refused Sr1None) "10.0.0.5" 80 2%Qc fresh_world
           (tcp_syn_scan (host_env true Refused Sr1None) "10.0.0.5" 80 2%Qc)
           "filtered" "Sem resposta" (World ∅ 3 0)).
  - right; left. reflexivity.
  - reflexivity.
Defined.

(** What the [try] block of [udp_scan] makes of the answer of [sr1]. *)
Lemma udp_try_reply env t p to w :
  udp_try env t p to w
  = match sr1_outcome_of env (IP t (UDP_datagram p)) to with
    | Sr1Raises msg => (Raise (Exception msg), World (socks w) (next_fd w) 0)
    | Sr1None => (Ok ("open|filtered", "Sem resposta")%string, World (socks w) (next_fd w) 0)
    | Sr1Reply resp =>
        (Ok (if udp_layer resp then ("open", "")
             else ("filtered", "Provavelmente filtrada"))%string,
         World (socks w) (next_fd w) 0)
    end.
Proof.
  unfold udp_try, set_conf_verb, sr1. unfold_M.
  destruct (sr1_outcome_of env (IP t (UDP_datagram p)) to) as [msg| |resp]; try reflexivity.
  destruct (udp_layer resp); reflexivity.
Qed.

(** X9: without the packet library the UDP probe answers [unknown] at
    once and touches nothing; with it, silence gives [open|filtered], a
    reply with a UDP layer [open], any other reply [filtered], and an
    exception of the packet library [unknown] with its text. *)
Theorem udp_scan_replies (env : Env) (t : string) (p : Z) (to : Qc) (w : world) :
  (SCAPY_AVAILABLE env = false →
     udp_scan env t p to w = (Ok ("unknown", "Scapy não disponível")%string, w))
  ∧ (SCAPY_AVAILABLE env = true →
     (sr1_outcome_of env (IP t (UDP_datagram p)) to = Sr1None →
        (udp_scan env t p to w).1 = Ok ("open|filtered", "Sem resposta")%string)
     ∧ (∀ resp, sr1_outcome_of env (IP t (UDP_datagram p)) to = Sr1Reply resp →
          udp_layer resp = true → (udp_scan env t p to w).1 = Ok ("open", "")%string)
     ∧ (∀ resp, sr1_outcome_of env (IP t (UDP_datagram p)) to = Sr1Reply resp →
          udp_layer resp = false →
          (udp_scan env t p to w).1 = Ok ("filtered", "Provavelmente filtrada")%string)
     ∧ (∀ msg, sr1_outcome_of env (IP t (UDP_datagram p)) to = Sr1Raises msg →
          (udp_scan env t p to w).1 = Ok ("unknown"%string, msg))).
Proof.
  split.
  - intros H. unfold udp_scan. by rewrite H.
  - intros H. unfold udp_scan. rewrite H. simpl. unfold try_except.
    rewrite udp_try_reply.
    split; [by intros ->|]. split; [by intros resp -> ->|].
    split; [by intros resp -> ->|]. by intros msg ->.
Qed.

Definition udp_reply : sr1_outcome := Sr1Reply {| tcp_flags := None; udp_layer := true |}.

Lemma udp_scan_replies_witness :
  udp_scan (host_env false Refused Sr1None) "10.0.0.5" 53 2%Qc fresh_world
  = (Ok ("unknown", "Scapy não disponível")%string, fresh_world)
  ∧ (udp_scan (host_env true Refused Sr1None) "10.0.0.5" 53 2%Qc fresh_world).1
    = Ok ("open|filtered", "Sem resposta")%string
  ∧ (udp_scan (host_env true Refused udp_reply) "10.0.0.5" 53 2%Qc fresh_world).1
    = Ok ("open", "")%string
  ∧ (udp_scan (host_env true Refused icmp_reply) "10.0.0.5" 53 2%Qc fresh_world).1
    = Ok ("filtered", "Provavelmente filtrada")%string.
Proof.
  split; [|split; [|split]].
  - apply (proj1 (udp_scan_replies (host_env false Refused Sr1None) "10.0.0.5" 53 2%Qc
                    fresh_world)). reflexivity.
  - apply (proj1 (proj2 (udp_scan_replies (host_env true Refused Sr1None) "10.0.0.5" 53 2%Qc
                    fresh_world) eq_refl)). reflexivity.
  - apply (proj1 (proj2 (proj2 (udp_scan_replies (host_env true Refused udp_reply)
                    "10.0.0.5" 53 2%Qc fresh_world) eq_refl))
             {| tcp_flags := None; udp_layer := true |}); reflexivity.
  - apply (proj1 (proj2 (proj2 (proj2 (udp_scan_replies (host_env true Refused icmp_reply)
                    "10.0.0.5" 53 2%Qc fresh_world) eq_refl)))
             {| tcp_flags := None; udp_layer := false |}); reflexivity.
Defined.

(** X12: the socket of the TCP connect probe is closed by [sock.close()]
    exactly when the [try] block runs to its end: the sockets open at the
    end of the block are those of before, and returning changes nothing
    more.  When the block raises after the socket was created, the new
    descriptor is still open as the handler runs, the only one added, and
    it is closed as the call returns. *)
Theorem tcp_connect_scan_socket (env : Env) (t : string) (p : Z) (to : Qc) (w : world) :
  socks w !! next_fd w = None →
  (∀ r w', tcp_connect_try env t p to w = (Ok r, w') →
     socks w' = socks w ∧ tcp_connect_scan env t p to w = (Ok r, w'))
  ∧ (∀ e w', tcp_connect_try env t p to w = (Raise e, w') →
     (size (socks w) < fd_limit env)%nat →
     is_Some (socks w' !! next_fd w)
     ∧ delete (next_fd w) (socks w') = socks w
     ∧ socks (tcp_connect_scan env t p to w).2 = socks w).
Proof.
  intros Hfresh. split.
  - intros r w' E. unfold tcp_connect_scan, call, try_except. rewrite E.
    apply tcp_connect_try_ok in E as [_ ->]. unfold release_frame.
    cbn [socks next_fd conf_verb]. case_decide; [|lia].
    rewrite delete_delete_eq, !delete_insert_eq, (delete_id _ _ Hfresh). done.
  - intros e w' E Hfd. unfold tcp_connect_scan, call, try_except. rewrite E.
    apply tcp_connect_try_raise in E as [[_ ?] | (Hnext & Hopen & Hdel)]; [lia|].
    rewrite (delete_id _ _ Hfresh) in Hdel.
    split; [done|]. split; [done|].
    unfold unknown_of, mret, M_ret, release_frame. case_decide; [|lia]. done.
Qed.

Lemma tcp_connect_scan_socket_witness :
  is_Some (socks (World (<[3%nat := Some 2%Qc]> (<[3%nat := None]> ∅)) 4 2) !! next_fd fresh_world)
  ∧ delete (next_fd fresh_world)
      (socks (World (<[3%nat := Some 2%Qc]> (<[3%nat := None]> ∅)) 4 2)) = socks fresh_world
  ∧ socks (tcp_connect_scan (host_env false Refused Sr1None) "no.such.host" 80 2%Qc
             fresh_world).2 = socks fresh_world.
Proof.
  apply (proj2 (tcp_connect_scan_socket (host_env false Refused Sr1None) "no.such.host" 80
                  2%Qc fresh_world eq_refl)
           (Exception "[Errno -2] Name or service not known")).
  - vm_compute. reflexivity.
  - vm_compute. lia.
Defined.

(** * Further properties of the worker pool *)

(** A thread that is at the probe or past it: its job will be answered
    even when the stop flag is set. *)
Definition committed (p : pc) : nat :=
  match p with
  | Probe _ | Append _ => 1
  | LoopTest | GetJob | StopTest _ | Exited => 0
  end.

(** The steps a thread has left before it takes its next job or exits. *)
Definition steps_left (p : pc) : nat :=
  match p with
  | Exited => 0
  | GetJob => 1
  | LoopTest => 2
  | Append _ => 3
  | Probe _ => 4
  | StopTest _ => 5
  end.

(** A bound on the thread steps the pool can still take: five for each
    queued job, and what the threads have left. *)
Definition steps_bound (s : pool) : nat :=
  5 * length (taskq s) + sum_list_with steps_left (threads s).

(** The thread steps of a schedule. *)
Definition thread_steps (evs : list event) : nat :=
  sum_list_with (λ ev, match ev with Run _ => 1 | Stop | Clear => 0 end)%nat evs.

Lemma sum_list_with_insert (f : pc → nat) ths i p :
  ths !! i = Some p →
  ∀ p', (sum_list_with f (<[i := p']> ths) + f p = sum_list_with f ths + f p')%nat.
Proof.
  intros Hi p'. pose proof (lookup_lt_Some _ _ _ Hi) as Hlt.
  rewrite insert_take_drop by done.
  rewrite <- (take_drop_middle ths i p Hi) at 3.
  rewrite !sum_list_with_app. simpl. lia.
Qed.

Lemma thread_step_length env st i s s' :
  thread_step env st i s = Some s' → length (threads s') = length (threads s).
Proof.
  unfold thread_step, set_thread.
  repeat case_match; intros; simplify_eq; cbn [threads]; by rewrite length_insert.
Qed.

Lemma pool_run_length env st evs : ∀ s s',
  pool_run env st evs s = Some s' → length (threads s') = length (threads s).
Proof.
  induction evs as [|ev evs IH]; intros s s' Hrun; simpl in Hrun; [by simplify_eq|].
  destruct ev as [i| |]; simpl in Hrun.
  - destruct (thread_step env st i s) as [s1|] eqn:Hstep; [|done].
    rewrite (IH _ _ Hrun). by eapply thread_step_length.
  - by rewrite (IH _ _ Hrun).
  - by rewrite (IH _ _ Hrun).
Qed.

(** Every thread step uses up the bound. *)
Lemma thread_step_bound env st i s s' :
  thread_step env st i s = Some s' → (steps_bound s' < steps_bound s)%nat.
Proof.
  unfold thread_step. destruct (threads s !! i) as [p|] eqn:Hi; [|done].
  pose proof (sum_list_with_insert steps_left _ _ _ Hi) as Hsum.
  unfold steps_bound, set_thread.
  destruct p as [| |j|j|r|]; intros Hstep.
  - simplify_eq. cbn [taskq threads].
    specialize (Hsum (if stop_event s then Exited else GetJob)).
    destruct (stop_event s); simpl in Hsum; lia.
  - destruct (taskq s) as [|j q]; simplify_eq; cbn [taskq threads].
    + specialize (Hsum Exited). simpl in Hsum. lia.
    + specialize (Hsum (StopTest j)). simpl in *. lia.
  - destruct (stop_event s); simplify_eq; cbn [taskq threads].
    + specialize (Hsum Exited). simpl in Hsum. lia.
    + specialize (Hsum (Probe j)). simpl in Hsum. lia.
  - destruct (probe_of env st j (net s)) as [[[state info]|e] w']; simplify_eq;
      cbn [taskq threads].
    + specialize (Hsum (Append (mkScanResult j.1.1 j.1.2 j.2 state info))).
      simpl in Hsum. lia.
    + specialize (Hsum Exited). simpl in Hsum. lia.
  - simplify_eq. cbn [taskq threads]. specialize (Hsum LoopTest). simpl in Hsum. lia.
  - done.
Qed.

Lemma pool_run_bound env st evs : ∀ s s',
  pool_run env st evs s = Some s' → (thread_steps evs + steps_bound s' ≤ steps_bound s)%nat.
Proof.
  induction evs as [|ev evs IH]; intros s s' Hrun; simpl in Hrun.
  - simplify_eq. simpl. lia.
  - destruct ev as [i| |]; simpl in Hrun.
    + destruct (thread_step env st i s) as [s1|] eqn:Hstep; [|done].
      pose proof (thread_step_bound _ _ _ _ _ Hstep). specialize (IH _ _ Hrun).
      unfold thread_steps in *. simpl. lia.
    + specialize (IH _ _ Hrun). unfold thread_steps, steps_bound in *. simpl in *. lia.
    + specialize (IH _ _ Hrun). unfold thread_steps, steps_bound in *. simpl in *. lia.
Qed.

(** X15: every scan terminates: whatever the schedule, the threads of a
    scan take at most five steps for each job and two more each. *)
Theorem scan_terminates
    (env : Env) (st : settings) (tcp udp : bool) (targets : list string) (ports : list Z)
    (num_threads : Z) (w : world) (evs : list event) (s' : pool) :
  pool_run env st evs (start_scan tcp udp targets ports num_threads w) = Some s' →
  (thread_steps evs
   ≤ 5 * (length targets * length ports * enabled_protocols tcp udp)
     + 2 * pool_size num_threads)%nat
  ∧ (pool_size num_threads ≤ 500)%nat.
Proof.
  intros Hrun. apply pool_run_bound in Hrun.
  unfold steps_bound, start_scan in Hrun. cbn [taskq threads] in Hrun.
  rewrite length_enqueue_jobs in Hrun.
  assert (∀ k, sum_list_with steps_left (replicate k LoopTest) = 2 * k)%nat as Hk.
  { induction k as [|k IHk]; simpl; lia. }
  rewrite Hk in Hrun. split; [lia|]. unfold pool_size. lia.
Qed.

Lemma scan_terminates_witness :
  (thread_steps (take_turns 7) ≤ 5 * (1 * 2 * 1) + 2 * 2)%nat ∧ (2 ≤ 500)%nat.
Proof.
  apply (scan_terminates (host_env false Refused Sr1None) connect_settings true false
           ["10.0.0.5"%string] (parse_ports "80,443") 2 fresh_world (take_turns 7)
           (Pool [] 0
              [mkScanResult "10.0.0.5" "tcp" 80 "closed" "";
               mkScanResult "10.0.0.5" "tcp" 443 "closed" ""]
              false [Exited; Exited] (World ∅ 5 2))).
  vm_compute. reflexivity.
Defined.

(** X16: the pool can move as long as some thread has not exited, and only
    then: no thread ever waits for another. *)
Theorem pool_stuck_iff_completed (env : Env) (st : settings) (s : pool) :
  completed s ↔ ∀ i, thread_step env st i s = None.
Proof.
  unfold completed. split.
  - intros Hall i. unfold thread_step.
    destruct (threads s !! i) as [p|] eqn:Hi; [|done].
    rewrite Forall_lookup in Hall. by rewrite (Hall i p Hi).
  - intros Hstuck. apply Forall_lookup. intros i p Hi.
    specialize (Hstuck i). unfold thread_step in Hstuck. rewrite Hi in Hstuck.
    destruct p as [| |j|j|r|]; try done.
    + by destruct (taskq s).
    + by destruct (stop_event s).
    + by destruct (probe_of env st j (net s)) as [[[??]|?] ?].
Qed.

(** What holds of the pool under every schedule, stopped or not: the jobs
    answered, in hand and queued are jobs of the queue as it was filled,
    none more often than it was queued; and the queue's counter of
    unfinished tasks is the number of jobs queued or in hand. *)
Definition pool_any_inv (jobs : list job) (s : pool) : Prop :=
  (job_of <$> results s) ++ in_flight (threads s) ++ taskq s ⊆+ jobs
  ∧ unfinished_tasks s = (length (taskq s) + length (in_flight (threads s)))%nat.

Lemma pool_any_inv_start tcp udp targets ports n w :
  pool_any_inv (enqueue_jobs tcp udp targets ports) (start_scan tcp udp targets ports n w).
Proof.
  unfold pool_any_inv, start_scan. cbn [results threads taskq unfinished_tasks].
  assert (in_flight (replicate (pool_size n) LoopTest) = []) as ->.
  { unfold in_flight. induction (pool_size n); csimpl; auto. }
  simpl. split; [done|lia].
Qed.

Lemma thread_step_any_inv env st jobs i s s' :
  pool_any_inv jobs s → thread_step env st i s = Some s' → pool_any_inv jobs s'.
Proof.
  intros [Hsub Hun] Hstep. unfold thread_step in Hstep.
  destruct (threads s !! i) as [p|] eqn:Hi; [|done].
  destruct (in_flight_insert _ _ _ Hi) as (others & Hcur & Hnew).
  rewrite Hcur in Hsub, Hun. rewrite length_app in Hun.
  unfold pool_any_inv.
  destruct p as [| |j|j|r|].
  - simplify_eq. unfold set_thread. cbn [results threads taskq unfinished_tasks].
    rewrite Hnew, length_app. by destruct (stop_event s).
  - destruct (taskq s) as [|j q] eqn:Hq; simplify_eq;
      unfold set_thread; cbn [results threads taskq unfinished_tasks];
      rewrite Hnew, length_app.
    + by rewrite Hq.
    + simpl in *. split; [|lia]. by rewrite Permutation_middle.
  - destruct (stop_event s); simplify_eq;
      unfold set_thread; cbn [results threads taskq unfinished_tasks];
      rewrite Hnew, length_app; simpl in *.
    + split; [|lia]. etrans; [|exact Hsub].
      apply submseteq_app; [done|]. by apply submseteq_cons.
    + done.
  - destruct (probe_of_returns env st j (net s)) as (state & info & w' & E).
    rewrite E in Hstep. simplify_eq. cbn [results threads taskq unfinished_tasks].
    rewrite Hnew, length_app. by destruct j as [[??]?].
  - simplify_eq. cbn [results threads taskq unfinished_tasks].
    rewrite Hnew, length_app. simpl in *. split; [|lia].
    by rewrite fmap_app, <- app_assoc.
  - done.
Qed.

Lemma pool_run_any_inv env st jobs evs : ∀ s s',
  pool_any_inv jobs s → pool_run env st evs s = Some s' → pool_any_inv jobs s'.
Proof.
  induction evs as [|ev evs IH]; intros s s' Hinv Hrun; simpl in Hrun; [by simplify_eq|].
  destruct ev as [i| |]; simpl in Hrun.
  - destruct (thread_step env st i s) as [s1|] eqn:Hstep; [|done].
    eapply IH; [|done]. by eapply thread_step_any_inv.
  - eapply IH; [|done]. done.
  - eapply IH; [|done]. done.
Qed.


(** A run of two threads that is stopped while thread 0 is at its probe:
    the job in hand is answered, the other one is not. *)
Definition stopped_run : list event :=
  [Run 0; Run 0; Run 0; Stop; Run 1; Run 0; Run 0; Run 0].


(** X18: the queue's counter of unfinished tasks always equals the number
    of jobs still queued or in the hands of a thread, so [task_done] is
    never called more often than [put]; when a run that nobody stops has
    completed the counter is zero. *)
Theorem unfinished_tasks_count
    (env : Env) (st : settings) (tcp udp : bool) (targets : list string) (ports : list Z)
    (num_threads : Z) (w : world) (evs : list event) (s' : pool) :
  pool_run env st evs (start_scan tcp udp targets ports num_threads w) = Some s' →
  unfinished_tasks s' = (length (taskq s') + length (in_flight (threads s')))%nat
  ∧ (Stop ∉ evs → completed s' → unfinished_tasks s' = 0%nat).
Proof.
  intros Hrun.
  destruct (pool_run_any_inv _ _ _ _ _ _ (pool_any_inv_start tcp udp targets ports num_threads w)
              Hrun) as [_ Hun].
  split; [done|]. intros Hns Hdone.
  destruct (pool_run_inv _ _ _ _ _ _ Hns (pool_inv_start tcp udp targets ports num_threads w)
              Hrun) as [(_ & _ & Hexit) Hlen].
  rewrite Hun, (in_flight_exited _ Hdone).
  unfold start_scan in Hlen. cbn [threads] in Hlen. rewrite length_replicate in Hlen.
  pose proof (pool_size_pos num_threads).
  rewrite Hexit; [done|].
  unfold completed in Hdone. destruct (threads s') as [|p ths]; [simpl in Hlen; lia|].
  apply Forall_cons in Hdone as [-> _]. left.
Qed.

Lemma unfinished_tasks_count_witness :
  ∃ s', pool_run (host_env false Refused Sr1None) connect_settings stopped_run
          (start_scan true false ["10.0.0.5"%string] (parse_ports "80,443") 2 fresh_world)
        = Some s'
        ∧ unfinished_tasks s' = 1%nat
        ∧ taskq s' = [("10.0.0.5", "tcp", 443)]%string.
Proof.
  eexists. split; [vm_compute; reflexivity|].
  match goal with |- unfinished_tasks ?s = _ ∧ _ => set (final := s) end.
  split; [|reflexivity].
  rewrite (proj1 (unfinished_tasks_count (host_env false Refused Sr1None) connect_settings
                    true false ["10.0.0.5"%string] (parse_ports "80,443") 2 fresh_world
                    stopped_run final ltac:(vm_compute; reflexivity))).
  reflexivity.
Defined.

Lemma thread_step_after_stop env st i s s' :
  stop_event s = true → thread_step env st i s = Some s' →
  stop_event s' = true
  ∧ (length (results s') + sum_list_with committed (threads s')
     = length (results s) + sum_list_with committed (threads s))%nat.
Proof.
  intros Hstop. unfold thread_step. destruct (threads s !! i) as [p|] eqn:Hi; [|done].
  pose proof (sum_list_with_insert committed _ _ _ Hi) as Hsum.
  rewrite Hstop. unfold set_thread.
  destruct p as [| |j|j|r|]; intros Hstep.
  - simplify_eq. cbn [stop_event results threads].
    specialize (Hsum Exited). simpl in Hsum. split; [done|lia].
  - destruct (taskq s) as [|j q]; simplify_eq; cbn [stop_event results threads].
    + specialize (Hsum Exited). simpl in Hsum. split; [done|lia].
    + specialize (Hsum (StopTest j)). simpl in Hsum. split; [done|lia].
  - simplify_eq. cbn [stop_event results threads].
    specialize (Hsum Exited). simpl in Hsum. split; [done|lia].
  - destruct (probe_of_returns env st j (net s)) as (state & info & w' & E).
    rewrite E in Hstep. simplify_eq. cbn [stop_event results threads].
    specialize (Hsum (Append (mkScanResult j.1.1 j.1.2 j.2 state info))).
    simpl in Hsum. split; [done|lia].
  - simplify_eq. cbn [stop_event results threads]. rewrite length_app.
    specialize (Hsum LoopTest). simpl in *. split; [done|lia].
  - done.
Qed.

(** X14: once the stop flag is set, and for as long as no later
    [start_scan] clears it, it stays set and no thread starts another
    probe: the results grow by the jobs of the threads that were already
    at their probe or past it, and by no other. *)
Theorem no_new_probe_after_stop (env : Env) (st : settings) (evs : list event) (s s' : pool) :
  stop_event s = true →
  Clear ∉ evs →
  pool_run env st evs s = Some s' →
  stop_event s' = true
  ∧ (length (results s') + sum_list_with committed (threads s')
     = length (results s) + sum_list_with committed (threads s))%nat.
Proof.
  revert s. induction evs as [|ev evs IH]; intros s Hstop Hnc Hrun; simpl in Hrun.
  - by simplify_eq.
  - apply not_elem_of_cons in Hnc as [Hev Hnc].
    destruct ev as [i| |]; [| |done]; simpl in Hrun.
    + destruct (thread_step env st i s) as [s1|] eqn:Hstep; [|done].
      destruct (thread_step_after_stop _ _ _ _ _ Hstop Hstep) as [Hstop1 Heq1].
      destruct (IH s1 Hstop1 Hnc Hrun) as [? Heq]. split; [done|lia].
    + apply IH in Hrun as [? Heq]; [|done..]. cbn [results threads] in Heq. done.
Qed.

Lemma no_new_probe_after_stop_witness :
  ∃ s', pool_run (host_env false Refused Sr1None) connect_settings
          [Run 1; Run 0; Run 0; Run 0]
          (Pool [("10.0.0.5", "tcp", 443)]%string 2 [] true
                [Probe ("10.0.0.5", "tcp", 80)%string; LoopTest] fresh_world)
        = Some s'
        ∧ stop_event s' = true
        ∧ (length (results s') + sum_list_with committed (threads s') = 0 + 1)%nat.
Proof.
  eexists. split; [vm_compute; reflexivity|].
  match goal with |- stop_event ?s = _ ∧ _ => set (final := s) end.
  apply (no_new_probe_after_stop (host_env false Refused Sr1None) connect_settings
           [Run 1; Run 0; Run 0; Run 0]
           (Pool [("10.0.0.5", "tcp", 443)]%string 2 [] true
                 [Probe ("10.0.0.5", "tcp", 80)%string; LoopTest] fresh_world) final).
  - reflexivity.
  - intros H. repeat (apply elem_of_cons in H as [H|H]; [discriminate H|]).
    by apply elem_of_nil in H.
  - vm_compute. reflexivity.
Defined.





(** X19: a scan runs between 1 and 500 worker threads, the number asked
    for when that lies between, and no thread is added or lost on the
    way. *)
Theorem thread_count
    (env : Env) (st : settings) (tcp udp : bool) (targets : list string) (ports : list Z)
    (num_threads : Z) (w : world) (evs : list event) (s' : pool) :
  pool_run env st evs (start_scan tcp udp targets ports num_threads w) = Some s' →
  length (threads s') = pool_size num_threads
  ∧ (1 ≤ pool_size num_threads ≤ 500)%nat
  ∧ (1 ≤ num_threads ≤ 500 → Z.of_nat (pool_size num_threads) = num_threads).
Proof.
  intros Hrun. apply pool_run_length in Hrun.
  unfold start_scan in Hrun. cbn [threads] in Hrun. rewrite length_replicate in Hrun.
  unfold pool_size in *. split; [done|]. split; lia.
Qed.

Lemma thread_count_witness :
  length (threads (start_scan true false ["10.0.0.5"%string] [80] 9999 fresh_world))
  = pool_size 9999
  ∧ (1 ≤ pool_size 9999 ≤ 500)%nat
  ∧ (1 ≤ 9999 ≤ 500 → Z.of_nat (pool_size 9999) = 9999).
Proof.
  apply (thread_count (host_env false Refused Sr1None) connect_settings true false
           ["10.0.0.5"%string] [80] 9999 fresh_world []).
  reflexivity.
Defined.

(** * Properties of the command line program *)

(** The (target, protocol, port) triples of a CLI scan, in the order of
    its loops. *)
Definition cli_port_jobs (a : Cli.args) (t : string) (p : Z) : list job :=
  (if Cli.tcp a then [(t, "TCP"%string, p)] else [])
  ++ (if Cli.udp a then [(t, "UDP"%string, p)] else []).

Definition cli_jobs (a : Cli.args) (targets : list string) (ports : list Z) : list job :=
  targets ≫= (λ t, ports ≫= cli_port_jobs a t).

(** The line is a result line for the job, with some state of the
    enumeration. *)
Definition is_line_of (line : string) (j : job) : Prop :=
  ∃ state info, state ∈ scan_states ∧ line = tab_line j.1.1 j.1.2 j.2 state info.

Lemma cli_tcp_probe_returns env (a : Cli.args) t p w :
  ∃ st inf w',
    (if Cli.syn a then tcp_syn_scan_cli env t p (Cli.timeout a)
     else tcp_connect_scan_cli env t p (Cli.timeout a)) w = (Ok (st, inf), w')
    ∧ st ∈ scan_states.
Proof.
  destruct (Cli.syn a).
  - rewrite tcp_syn_scan_cli_same. apply tcp_syn_scan_returns.
  - rewrite tcp_connect_scan_cli_same. apply tcp_connect_scan_returns.
Qed.

(** A loop whose body ends normally and appends to the accumulator. *)
Lemma for_each_appends {A X : Type} (R : string → X → Prop)
    (body : list string → A → M (list string)) (spec : A → list X) :
  (∀ acc x w, ∃ new w', body acc x w = (Ok (acc ++ new), w') ∧ Forall2 R new (spec x)) →
  ∀ xs acc w, ∃ new w',
    Cli.for_each body acc xs w = (Ok (acc ++ new), w') ∧ Forall2 R new (xs ≫= spec).
Proof.
  intros Hbody. induction xs as [|x xs IH]; intros acc w.
  - exists [], w. rewrite app_nil_r. split; [done|constructor].
  - destruct (Hbody acc x w) as (new1 & w1 & E1 & H1).
    destruct (IH (acc ++ new1) w1) as (new2 & w2 & E2 & H2).
    exists (new1 ++ new2), w2. split.
    + simpl. unfold_M. rewrite E1. by rewrite E2, <- app_assoc.
    + csimpl. by apply Forall2_app.
Qed.

Lemma cli_scan_port_appends env (a : Cli.args) t acc p w :
  ∃ new w', Cli.scan_port env a t acc p w = (Ok (acc ++ new), w')
            ∧ Forall2 is_line_of new (cli_port_jobs a t p).
Proof.
  unfold Cli.scan_port, cli_port_jobs. unfold_M.
  destruct (Cli.tcp a).
  - destruct (cli_tcp_probe_returns env a t p w) as (st & inf & w1 & -> & Hst).
    destruct (Cli.udp a).
    + destruct (udp_scan_returns env t p (Cli.timeout a) w1) as (st2 & inf2 & w2 & -> & Hst2).
      exists [tab_line t "TCP" p st inf; tab_line t "UDP" p st2 inf2], w2.
      split; [by rewrite <- app_assoc|].
      constructor; [by exists st, inf|].
      constructor; [by exists st2, inf2|]. constructor.
    + exists [tab_line t "TCP" p st inf], w1. split; [done|].
      constructor; [by exists st, inf|]. constructor.
  - destruct (Cli.udp a).
    + destruct (udp_scan_returns env t p (Cli.timeout a) w) as (st2 & inf2 & w2 & -> & Hst2).
      exists [tab_line t "UDP" p st2 inf2], w2. split; [done|].
      constructor; [by exists st2, inf2|]. constructor.
    + exists [], w. rewrite app_nil_r. split; [done|constructor].
Qed.



Lemma cli_scan_appends env (a : Cli.args) targets ports w :
  ∃ lines w', Cli.scan env a targets ports w = (Ok lines, w')
              ∧ Forall2 is_line_of lines (cli_jobs a targets ports).
Proof.
  unfold Cli.scan, cli_jobs.
  destruct (for_each_appends is_line_of
              (λ results t, Cli.for_each (Cli.scan_port env a t) results ports)
              (λ t, ports ≫= cli_port_jobs a t)) with (xs := targets) (acc := @nil string) (w := w)
    as (lines & w' & E & H).
  - intros acc t w0. apply for_each_appends. intros acc' p w1. apply cli_scan_port_appends.
  - by exists lines, w'.
Qed.


(** Two loops over the same list whose bodies keep a relation between
    their accumulators and act alike on the world. *)
Lemma for_each_related {A B1 B2 : Type} (Rel : B1 → B2 → Prop)
    (body1 : B1 → A → M B1) (body2 : B2 → A → M B2) :
  (∀ acc1 acc2 x w, Rel acc1 acc2 →
     ∃ acc1' acc2' w', body1 acc1 x w = (Ok acc1', w') ∧ body2 acc2 x w = (Ok acc2', w')
                       ∧ Rel acc1' acc2') →
  ∀ xs acc1 acc2 w, Rel acc1 acc2 →
    ∃ acc1' acc2' w', Cli.for_each body1 acc1 xs w = (Ok acc1', w')
                      ∧ Cli.for_each body2 acc2 xs w = (Ok acc2', w')
                      ∧ Rel acc1' acc2'.
Proof.
  intros Hbody. induction xs as [|x xs IH]; intros acc1 acc2 w Hrel.
  - by exists acc1, acc2, w.
  - destruct (Hbody acc1 acc2 x w Hrel) as (a1 & a2 & w1 & E1 & E2 & Hrel1).
    destruct (IH a1 a2 w1 Hrel1) as (b1 & b2 & w2 & F1 & F2 & Hrel2).
    exists b1, b2, w2. split; [|split; [|done]]; simpl; unfold_M.
    + by rewrite E1.
    + by rewrite E2.
Qed.

Lemma main_scan_port_related env (a : Cli.args) t
    (acc1 : list string * list string) (acc2 : list string) p w :
  acc1.1 = acc2 →
  ∃ acc1' acc2' w',
    Main.scan_port env a t acc1 p w = (Ok acc1', w')
    ∧ Cli.scan_port env a t acc2 p w = (Ok acc2', w')
    ∧ acc1'.1 = acc2'.
Proof.
  intros <-. unfold Main.scan_port, Cli.scan_port. unfold_M.
  destruct (Cli.tcp a).
  - destruct (cli_tcp_probe_returns env a t p w) as (st & inf & w1 & -> & _).
    destruct (Cli.udp a).
    + destruct (udp_scan_returns env t p (Cli.timeout a) w1) as (st2 & inf2 & w2 & -> & _).
      by eexists _, _, _.
    + by eexists _, _, _.
  - destruct (Cli.udp a).
    + destruct (udp_scan_returns env t p (Cli.timeout a) w) as (st2 & inf2 & w2 & -> & _).
      by eexists _, _, _.
    + by eexists _, _, _.
Qed.

(** The loops of [main] collect the lines that [Cli.scan] collects, with
    the same effect on the world. *)
Lemma main_loops_related env (a : Cli.args) targets ports banner w :
  ∃ results printed lines w',
    Cli.for_each (Main.scan_target env a ports) ([], banner) targets w
    = (Ok (results, printed), w')
    ∧ Cli.scan env a targets ports w = (Ok lines, w')
    ∧ results = lines.
Proof.
  destruct (for_each_related (λ (acc1 : list string * list string) (acc2 : list string),
                                acc1.1 = acc2)
              (Main.scan_target env a ports)
              (λ results t, Cli.for_each (Cli.scan_port env a t) results ports))
    with (xs := targets) (acc1 := (@nil string, banner)) (acc2 := @nil string) (w := w)
    as ([results printed] & lines & w' & E1 & E2 & Hrel).
  - intros acc1 acc2 t w0 Hrel. unfold Main.scan_target.
    apply for_each_related; [|done].
    intros b1 b2 p w1 Hb. by apply main_scan_port_related.
  - done.
  - by exists results, printed, lines, w'.
Qed.

Section MainFacts.
Variable ip_network_hosts : string → option (list string).
Variable ipv4_literal ipv6_literal : string → bool.
Variable write_error : string → string → option string.

Abbreviation run_main :=
  (Main.main ip_network_hosts ipv4_literal ipv6_literal write_error).
Abbreviation targets_of c :=
  (parse_targets ip_network_hosts ipv4_literal ipv6_literal (Main.target_arg c)).

Lemma main_rejects env c w :
  (Cli.tcp (Main.flags c) = false ∧ Cli.udp (Main.flags c) = false)
  ∨ targets_of c = [] ∨ parse_ports (Main.ports_arg c) = [] →
  ∃ msg, run_main env c w
         = (Ok {| Main.exit_code := Some 1; Main.stdout := [msg]; Main.written := None |}, w).
Proof.
  intros Hbad. unfold Main.main. cbv zeta.
  destruct (negb (Cli.tcp (Main.flags c)) && negb (Cli.udp (Main.flags c))) eqn:Hproto;
    [by eexists|].
  case_bool_decide as Ht; [by eexists|].
  case_bool_decide as Hp; [by eexists|].
  destruct Hbad as [[H1 H2]|[?|?]]; try done.
  rewrite H1, H2 in Hproto. done.
Qed.

Lemma main_runs env c w :
  (Cli.tcp (Main.flags c) = true ∨ Cli.udp (Main.flags c) = true) →
  targets_of c ≠ [] →
  parse_ports (Main.ports_arg c) ≠ [] →
  ∃ lines out w',
    Cli.scan env (Main.flags c) (targets_of c) (parse_ports (Main.ports_arg c)) w
    = (Ok lines, w')
    ∧ run_main env c w = (Ok out, w')
    ∧ Main.exit_code out = None
    ∧ Main.written out
      = match Cli.output (Main.flags c) with
        | Some path =>
            if bool_decide (path = EmptyString) then None
            else match write_error path (Cli.output_text lines) with
                 | None => Some (path, Cli.output_text lines)
                 | Some _ => None
                 end
        | None => None
        end.
Proof.
  intros Hproto Ht Hp. unfold Main.main. cbv zeta.
  assert (negb (Cli.tcp (Main.flags c)) && negb (Cli.udp (Main.flags c)) = false) as ->.
  { destruct Hproto as [-> | ->]; [done|]. apply andb_false_r. }
  rewrite !bool_decide_eq_false_2 by done. unfold_M.
  match goal with
  | |- context [Cli.for_each _ ([], ?b) _ _] =>
      destruct (main_loops_related env (Main.flags c) (targets_of c)
                  (parse_ports (Main.ports_arg c)) b w)
        as (results & printed & lines & w' & -> & E & ->)
  end.
  exists lines. rewrite E.
  destruct (Cli.output (Main.flags c)) as [path|]; [|by eexists _, _].
  case_bool_decide; [by eexists _, _|].
  destruct (write_error path (Cli.output_text lines)); by eexists _, _.
Qed.

End MainFacts.

(** X22: without a protocol, without a valid target or without a valid
    port, [main] prints one error message and exits with status 1, before
    any probe: nothing is sent and no file is written. *)
Theorem main_configuration_errors
    (ip_network_hosts : string → option (list string))
    (ipv4_literal ipv6_literal : string → bool)
    (write_error : string → string → option string)
    (env : Env) (c : Main.cmdline) (w : world) :
  (Cli.tcp (Main.flags c) = false ∧ Cli.udp (Main.flags c) = false)
  ∨ parse_targets ip_network_hosts ipv4_literal ipv6_literal (Main.target_arg c) = []
  ∨ parse_ports (Main.ports_arg c) = [] →
  ∃ msg, Main.main ip_network_hosts ipv4_literal ipv6_literal write_error env c w
         = (Ok {| Main.exit_code := Some 1; Main.stdout := [msg]; Main.written := None |}, w).
Proof. apply main_rejects. Qed.

Definition sample_cmdline (ports_text : string) : Main.cmdline :=
  {| Main.target_arg := "10.0.0.5"; Main.ports_arg := ports_text;
     Main.flags := cli_tcp_connect |}.

Lemma main_configuration_errors_witness :
  ∃ msg, Main.main sample_hosts (λ _, true) (λ _, true) (λ _ _, None)
           (host_env false Established Sr1None) (sample_cmdline "70000,http") fresh_world
         = (Ok {| Main.exit_code := Some 1; Main.stdout := [msg]; Main.written := None |},
            fresh_world).
Proof.
  apply main_configuration_errors. right; right. vm_compute. reflexivity.
Defined.



(** * Properties of the display tables *)

Definition display_names : list string :=
  ["Aberta"; "Fechada"; "Filtrada"; "Aberta/Filtrada"; "Tempo esgotado"; "Desconhecida"]%string.

Lemma mapping_values s v : mapping !! s = Some v → v ∈ display_names.
Proof.
  intros H. apply elem_of_list_to_map_2 in H.
  unfold display_names. rewrite !elem_of_cons, elem_of_nil in *.
  destruct_or!; simplify_eq; try (by apply elem_of_nil in H); auto 10.
Qed.

Lemma traduz_estado_idem_aux (s : string) :
  (s ∉ ["open"; "closed"; "filtered"; "open|filtered"; "timeout"; "unknown"]%string →
   traduz_estado s = s)
  ∧ traduz_estado (traduz_estado s) = traduz_estado s.
Proof.
  split.
  - intros Hs. unfold traduz_estado, mapping.
    rewrite (not_elem_of_list_to_map_1 _ s); done.
  - unfold traduz_estado at 2 3. destruct (mapping !! s) as [v|] eqn:E; simpl.
    + apply mapping_values in E. unfold display_names in E.
      rewrite !elem_of_cons, elem_of_nil in E.
      destruct_or!; subst; try done; vm_compute; reflexivity.
    + unfold traduz_estado. by rewrite E.
Qed.

(** X24: a state outside the table is shown as it is, and translating
    twice is translating once: the display names are no keys of the
    table. *)
Theorem traduz_estado_twice (s : string) :
  (s ∉ ["open"; "closed"; "filtered"; "open|filtered"; "timeout"; "unknown"]%string →
   traduz_estado s = s)
  ∧ traduz_estado (traduz_estado s) = traduz_estado s.
Proof. apply traduz_estado_idem_aux. Qed.

Lemma traduz_estado_twice_witness :
  traduz_estado "down" = "down"%string.
Proof.
  apply (proj1 (traduz_estado_twice "down")).
  rewrite !not_elem_of_cons. repeat split; try discriminate. apply not_elem_of_nil.
Defined.

(** X25: the colour of a row, as [log_result] computes it from the state:
    the five states of the probes get green, salmon, khaki, orange and
    white, and every text that is neither a state with a colour of its
    own nor the display name of one is white. *)
Theorem row_colour (s : string) :
  (cor_estado ∘ traduz_estado <$> scan_states)
  = ["lightgreen"; "salmon"; "khaki"; "orange"; "white"]%string
  ∧ (s ∉ ["open"; "closed"; "filtered"; "open|filtered"; "timeout";
          "Aberta"; "Fechada"; "Filtrada"; "Aberta/Filtrada"; "Tempo esgotado"]%string →
     cor_estado (traduz_estado s) = "white"%string).
Proof.
  split; [vm_compute; reflexivity|].
  intros Hs. rewrite !not_elem_of_cons in Hs.
  destruct Hs as (? & ? & ? & ? & ? & ? & ? & ? & ? & ? & _).
  destruct (decide (s = "unknown"%string)) as [->|Hunk]; [vm_compute; reflexivity|].
  rewrite (proj1 (traduz_estado_idem_aux s)).
  - unfold cor_estado. destruct (colours !! s) as [v|] eqn:E; [|done].
    apply elem_of_list_to_map_2 in E.
    rewrite !elem_of_cons, elem_of_nil in E. destruct_or!; simplify_eq; done.
  - rewrite !not_elem_of_cons. repeat split; try done. apply not_elem_of_nil.
Qed.

Lemma row_colour_witness :
  cor_estado (traduz_estado "down") = "white"%string.
Proof.
  apply (proj2 (row_colour "down")).
  rewrite !not_elem_of_cons. repeat split; try discriminate. apply not_elem_of_nil.
Defined.

(** * Properties of whole scans in the GUI *)

(** What [start_scan] of the GUI decides before it touches anything: to
    ignore the click while a scan runs, to show an error box, or to launch
    a scan of the parsed targets and ports. *)
Inductive start_decision :=
  | Ignore
  | ShowError (msg : string)
  | Launch (targets : list string) (ports : list Z).

Section StartChecks.
Variable ip_network_hosts : string → option (list string).
Variable ipv4_literal ipv6_literal : string → bool.

(** The checks at the head of [MeltScanApp.start_scan]; [target_entry] and
    [ports_entry] are the texts of the two input fields. *)
Definition start_scan_checks (scanning : bool) (target_entry ports_entry : string)
    (tcp_var udp_var : bool) : start_decision :=
  if scanning then Ignore
  else
    let targets_text := PyStr.strip target_entry in
    let targets := parse_targets ip_network_hosts ipv4_literal ipv6_literal targets_text in
    if bool_decide (targets = []) then ShowError "Nenhum alvo válido fornecido."
    else
      let ports_text := PyStr.strip ports_entry in
      let ports := parse_ports ports_text in
      if bool_decide (ports = []) && (tcp_var || udp_var)
      then ShowError "Nenhuma porta válida fornecida."
      else Launch targets ports.

End StartChecks.

(** X26: a scan that [start_scan] launches with a protocol ticked has at
    least one job; with no protocol ticked the scan is launched all the
    same, without an error box, on an empty queue. *)
Theorem launched_scan_jobs
    (ip_network_hosts : string → option (list string))
    (ipv4_literal ipv6_literal : string → bool)
    (scanning : bool) (target_entry ports_entry : string) (tcp_var udp_var : bool)
    (targets : list string) (ports : list Z) :
  start_scan_checks ip_network_hosts ipv4_literal ipv6_literal scanning
    target_entry ports_entry tcp_var udp_var = Launch targets ports →
  scanning = false
  ∧ targets ≠ []
  ∧ (enqueue_jobs tcp_var udp_var targets ports = [] ↔ tcp_var = false ∧ udp_var = false).
Proof.
  unfold start_scan_checks. destruct scanning; [done|]. cbv zeta.
  case_bool_decide as Ht; [done|].
  destruct (bool_decide (parse_ports (PyStr.strip ports_entry) = []) && (tcp_var || udp_var))
    eqn:Hp; [done|].
  intros [= <- <-]. split; [done|]. split; [done|].
  rewrite <- length_zero_iff_nil, length_enqueue_jobs.
  set (targets := parse_targets _ _ _ _) in *.
  set (ports := parse_ports _) in *.
  assert (0 < length targets)%nat by (destruct targets; [done | simpl; lia]).
  unfold enabled_protocols. split.
  - intros Hz. destruct tcp_var, udp_var; simpl in *; try done.
    all: rewrite andb_true_r in Hp; apply bool_decide_eq_false in Hp;
      assert (0 < length ports)%nat by (destruct ports; [done | simpl; lia]); nia.
  - intros [-> ->]. simpl. lia.
Qed.

Lemma launched_scan_jobs_witness :
  false = false
  ∧ ["10.0.0.5"%string] ≠ []
  ∧ (enqueue_jobs false false ["10.0.0.5"%string] [] = [] ↔ false = false ∧ false = false).
Proof.
  apply (launched_scan_jobs sample_hosts (λ _, true) (λ _, true) false "10.0.0.5" ""
           false false ["10.0.0.5"%string] []).
  vm_compute. reflexivity.
Defined.

(** A result carries a state of the enumeration; and, without the packet
    library, [unknown] with the text of [udp_scan] unless its protocol is
    ["tcp"]. *)
Definition result_ok (env : Env) (r : ScanResult) : Prop :=
  state r ∈ scan_states
  ∧ (SCAPY_AVAILABLE env = false → proto r ≠ "tcp"%string →
     state r = "unknown"%string ∧ info r = "Scapy não disponível"%string).

Definition thread_ok (env : Env) (p : pc) : Prop :=
  match p with
  | Append r => result_ok env r
  | LoopTest | GetJob | StopTest _ | Probe _ | Exited => True
  end.

Lemma probe_of_result_ok env st j w sta inf w' :
  probe_of env st j w = (Ok (sta, inf), w') →
  result_ok env (mkScanResult j.1.1 j.1.2 j.2 sta inf).
Proof.
  destruct j as [[t pr] p]. unfold probe_of, result_ok. cbn [fst snd proto state info].
  intros E. split.
  - repeat case_bool_decide.
    + destruct (tcp_syn_scan_returns env t p (timeout st) w) as (? & ? & ? & E' & ?).
      rewrite E in E'. by simplify_eq.
    + destruct (tcp_connect_scan_returns env t p (timeout st) w) as (? & ? & ? & E' & ?).
      rewrite E in E'. by simplify_eq.
    + destruct (udp_scan_returns env t p (timeout st) w) as (? & ? & ? & E' & ?).
      rewrite E in E'. by simplify_eq.
  - intros Hscapy Hpr. rewrite bool_decide_eq_false_2 in E by done.
    unfold udp_scan in E. rewrite Hscapy in E. simpl in E.
    unfold mret, M_ret in E. by simplify_eq.
Qed.

Lemma thread_step_results_ok env st i s s' :
  Forall (result_ok env) (results s) → Forall (thread_ok env) (threads s) →
  thread_step env st i s = Some s' →
  Forall (result_ok env) (results s') ∧ Forall (thread_ok env) (threads s').
Proof.
  intros Hres Hths. unfold thread_step, set_thread.
  destruct (threads s !! i) as [p|] eqn:Hi; [|done].
  pose proof (proj1 (Forall_lookup _ _) Hths i p Hi) as Hp.
  destruct p as [| |j|j|r|]; intros Hstep.
  - simplify_eq. cbn [results threads]. split; [done|].
    apply Forall_insert; [done|]. by destruct (stop_event s).
  - destruct (taskq s); simplify_eq; cbn [results threads]; (split; [done|]);
      by apply Forall_insert.
  - destruct (stop_event s); simplify_eq; cbn [results threads]; (split; [done|]);
      by apply Forall_insert.
  - destruct (probe_of env st j (net s)) as [[[state info]|e] w'] eqn:E; simplify_eq;
      cbn [results threads]; (split; [done|]); apply Forall_insert; try done.
    simpl. by eapply probe_of_result_ok.
  - simplify_eq. cbn [results threads]. split; [|by apply Forall_insert].
    apply Forall_app. split; [done|]. by constructor.
  - done.
Qed.

(** X27: at every point of every run of the pool, each result carries one
    of the five states; and when the packet library is missing, each
    result of a UDP job is [unknown] with the text "Scapy não
    disponível". *)
Theorem results_well_formed
    (env : Env) (st : settings) (tcp udp : bool) (targets : list string) (ports : list Z)
    (num_threads : Z) (w : world) (evs : list event) (s' : pool) :
  pool_run env st evs (start_scan tcp udp targets ports num_threads w) = Some s' →
  Forall (λ r, state r ∈ scan_states) (results s')
  ∧ (SCAPY_AVAILABLE env = false →
     Forall (λ r, proto r = "udp"%string →
                  state r = "unknown"%string ∧ info r = "Scapy não disponível"%string)
            (results s')).
Proof.
  intros Hrun.
  assert (Forall (result_ok env) (results s') ∧ Forall (thread_ok env) (threads s'))
    as [Hres _].
  { revert Hrun.
    assert (Forall (result_ok env) (results (start_scan tcp udp targets ports num_threads w))
            ∧ Forall (thread_ok env)
                (threads (start_scan tcp udp targets ports num_threads w))) as Hstart.
    { unfold start_scan. cbn [results threads]. split; [constructor|].
      apply Forall_replicate. done. }
    revert Hstart. generalize (start_scan tcp udp targets ports num_threads w).
    induction evs as [|ev evs IH]; intros s [Hres Hths] Hrun; simpl in Hrun;
      [by simplify_eq|].
    destruct ev as [i| |]; simpl in Hrun.
    - destruct (thread_step env st i s) as [s1|] eqn:Hstep; [|done].
      apply (IH s1); [|done]. by eapply thread_step_results_ok.
    - eapply IH; [|exact Hrun]. by split.
    - eapply IH; [|exact Hrun]. by split. }
  split.
  - eapply Forall_impl; [exact Hres|]. by intros r [? _].
  - intros Hscapy. eapply Forall_impl; [exact Hres|].
    intros r [_ Hudp] Hpr. apply Hudp; [done|]. by rewrite Hpr.
Qed.

Lemma results_well_formed_witness :
  ∃ s', pool_run (host_env false Refused Sr1None) connect_settings (sequential 2 1)
          (start_scan true true ["10.0.0.5"%string] [53] 1 fresh_world) = Some s'
        ∧ results s'
          = [mkScanResult "10.0.0.5" "tcp" 53 "closed" "";
             mkScanResult "10.0.0.5" "udp" 53 "unknown" "Scapy não disponível"]
        ∧ Forall (λ r, state r ∈ scan_states) (results s').
Proof.
  eexists. split; [vm_compute; reflexivity|]. split; [reflexivity|].
  match goal with |- Forall _ (results ?s) => set (final := s) end.
  apply (results_well_formed (host_env false Refused Sr1None) connect_settings true true
           ["10.0.0.5"%string] [53] 1 fresh_world (sequential 2 1) final).
  vm_compute. reflexivity.
Defined.

(** * Properties of the result lines *)

Definition TABCHAR : ascii := "009".

Lemma split_app_sep ch (f rest : string) :
  PyStr.contains ch f = false →
  PyStr.split ch (f +:+ String ch rest) = f :: PyStr.split ch rest.
Proof.
  induction f as [|c f IH]; simpl.
  - intros _. unfold PyStr.eqc. by rewrite bool_decide_eq_true_2.
  - intros [Hc Hf]%orb_false_iff. rewrite Hc, IH; done.
Qed.

Lemma str_of_int_no_tab n : PyStr.contains TABCHAR (PyStr.str_of_int n) = false.
Proof.
  assert (∀ s, str_forall PyStr.isdigit s = true → PyStr.contains TABCHAR s = false) as Hd.
  { intros s Hs. apply contains_false_forall. revert Hs. apply str_forall_impl.
    intros c Hc. unfold is_not, PyStr.eqc. apply negb_true_iff, bool_decide_eq_false.
    intros ->. discriminate Hc. }
  destruct (Z.ltb_spec n 0).
  - unfold PyStr.str_of_int. replace (n <? 0) with true by lia.
    change (PyStr.contains TABCHAR (String "-" ?s)) with (PyStr.contains TABCHAR s).
    apply Hd, digits_of_digits; [lia|done].
  - apply Hd. by apply str_of_int_digits.
Qed.

(** X28: a result line splits at its tabs into the five fields it was made
    from, provided the target, the protocol, the state and the diagnostic
    hold no tab themselves. *)
Theorem tab_line_columns (t pr : string) (p : Z) (st inf : string) :
  PyStr.contains TABCHAR t = false →
  PyStr.contains TABCHAR pr = false →
  PyStr.contains TABCHAR st = false →
  PyStr.contains TABCHAR inf = false →
  PyStr.split TABCHAR (tab_line t pr p st inf) = [t; pr; PyStr.str_of_int p; st; inf].
Proof.
  intros Ht Hpr Hst Hinf.
  change (tab_line t pr p st inf)
    with (t +:+ String TABCHAR (pr +:+ String TABCHAR (PyStr.str_of_int p +:+
            String TABCHAR (st +:+ String TABCHAR inf)))).
  rewrite (split_app_sep TABCHAR t) by done.
  rewrite (split_app_sep TABCHAR pr) by done.
  rewrite (split_app_sep TABCHAR (PyStr.str_of_int p)) by apply str_of_int_no_tab.
  rewrite (split_app_sep TABCHAR st) by done.
  by rewrite split_single.
Qed.

Lemma tab_line_columns_witness :
  PyStr.split TABCHAR (tab_line "10.0.0.5" "TCP" 443 "open" "")
  = ["10.0.0.5"; "TCP"; "443"; "open"; ""]%string.
Proof.
  rewrite tab_line_columns by reflexivity. reflexivity.
Defined.

(** * Two more properties of the port parser and of the pool *)

(** X1: whatever the text, the ports come back in ascending order and
    none of them twice. *)
Theorem parse_ports_sorted_distinct (text : string) :
  Sorted Z.le (parse_ports text)
  ∧ NoDup (parse_ports text)
  ∧ (∀ i j x y, parse_ports text !! i = Some x → parse_ports text !! j = Some y →
                (i < j)%nat → x < y).
Proof.
  split; [apply parse_ports_Sorted|]. split; [apply parse_ports_NoDup|].
  pose proof (parse_ports_Sorted text) as Hs. pose proof (parse_ports_NoDup text) as Hnd.
  apply Sorted_StronglySorted in Hs; [|intros ???; lia].
  induction Hs as [|a l Hs IH Hall]; intros i j x y Hi Hj Hij; [done|].
  apply NoDup_cons in Hnd as [Ha Hnd].
  destruct j as [|j]; [lia|]. simpl in Hj.
  destruct i as [|i]; simpl in Hi.
  - simplify_eq. assert (y ∈ l) as Hy by (by eapply list_elem_of_lookup_2).
    rewrite Forall_forall in Hall. specialize (Hall y Hy).
    assert (x ≠ y) by (by intros ->). lia.
  - apply (IH Hnd i j); [done|done|lia].
Qed.

Lemma parse_ports_sorted_distinct_witness : 22 < 443.
Proof.
  apply (proj2 (proj2 (parse_ports_sorted_distinct "443,22,80,22")) 0%nat 2%nat 22 443);
    [reflexivity | reflexivity | lia].
Defined.

Lemma pool_stuck_iff_completed_witness :
  thread_step (host_env false Refused Sr1None) connect_settings 1
    (Pool [] 0 [] false [Exited; Exited] fresh_world) = None.
Proof.
  apply (proj1 (pool_stuck_iff_completed (host_env false Refused Sr1None) connect_settings
                  (Pool [] 0 [] false [Exited; Exited] fresh_world))).
  repeat constructor.
Defined.

Lemma thread_steps_sequential njobs nthreads :
  thread_steps (sequential njobs nthreads) = (5 * njobs + 2 * nthreads)%nat.
Proof.
  unfold thread_steps, sequential. rewrite sum_list_with_app.
  assert (∀ k, sum_list_with (λ ev, match ev with Run _ => 1 | Stop | Clear => 0 end)%nat
                 (replicate k (Run 0)) = k) as H1.
  { induction k as [|k IHk]; simpl; lia. }
  assert (∀ k n, sum_list_with (λ ev, match ev with Run _ => 1 | Stop | Clear => 0 end)%nat
                   (seq n k ≫= λ i, [Run i; Run i]) = (2 * k)%nat) as H2.
  { induction k as [|k IHk]; intros n; csimpl; [done|]. rewrite IHk. lia. }
  rewrite H1, H2. lia.
Qed.

(** X20: every scan can run to completion, and the bound on its steps is
    reached: the schedule in which the first thread answers every job and
    the threads then exit one after the other completes the scan in five
    steps for each job and two for each thread. *)
Theorem scan_completes_in_bound
    (env : Env) (st : settings) (tcp udp : bool) (targets : list string) (ports : list Z)
    (num_threads : Z) (w : world) :
  ∃ evs s',
    (Stop ∉ evs)
    ∧ pool_run env st evs (start_scan tcp udp targets ports num_threads w) = Some s'
    ∧ completed s'
    ∧ thread_steps evs
      = (5 * (length targets * length ports * enabled_protocols tcp udp)
         + 2 * pool_size num_threads)%nat.
Proof.
  set (q := enqueue_jobs tcp udp targets ports).
  exists (sequential (length q) (pool_size num_threads)).
  pose proof (pool_size_pos num_threads) as Hpos.
  destruct (pool_size num_threads) as [|m] eqn:Hm; [lia|].
  destruct (pool_run_all_jobs env st q (start_scan tcp udp targets ports num_threads w)
              (replicate m LoopTest)) as (s1 & Hrun1 & Hstop1 & Hq1 & Hths1).
  { done. } { done. } { unfold start_scan. cbn [threads]. by rewrite Hm. }
  destruct (pool_run_exits env st (S m) 0 s1 Hstop1 Hq1) as (s2 & Hrun2 & Hths2).
  { by rewrite Hths1. }
  exists s2. split; [apply Stop_not_in_sequential|]. split; [|split].
  - unfold sequential. rewrite pool_run_app. fold q. by rewrite Hrun1.
  - unfold completed. rewrite Hths2. apply Forall_replicate. done.
  - rewrite thread_steps_sequential. unfold q. by rewrite length_enqueue_jobs.
Qed.

(** * Range tokens within a port text *)

(** A run of separators at the head of a text leaves an empty piece. *)
Lemma re_split_sep cls sep rest :
  sep ≠ EmptyString → str_forall cls sep = true → PyStr.starts_in cls rest = false →
  PyStr.re_split cls (sep +:+ rest) = EmptyString :: PyStr.re_split cls rest.
Proof.
  induction sep as [|c sep IH]; [done|].
  intros _ [Hc Hs]%andb_true_iff Hrest.
  change (String c sep +:+ rest) with (String c (sep +:+ rest)).
  cbn [PyStr.re_split]. rewrite Hc. destruct sep as [|c' sep'].
  - change (EmptyString +:+ rest) with rest. by rewrite Hrest.
  - assert (PyStr.starts_in cls (String c' sep' +:+ rest) = true) as ->.
    { simpl in Hs |- *. by apply andb_true_iff in Hs as [? _]. }
    by apply IH.
Qed.

(** A piece, a run of separators, and more text. *)
Lemma re_split_app cls tok sep rest :
  str_forall (λ c, negb (cls c)) tok = true →
  sep ≠ EmptyString → str_forall cls sep = true → PyStr.starts_in cls rest = false →
  PyStr.re_split cls (tok +:+ sep +:+ rest) = tok :: PyStr.re_split cls rest.
Proof.
  intros Htok Hne Hsep Hrest. induction tok as [|c tok IH].
  - exact (re_split_sep cls sep rest Hne Hsep Hrest).
  - simpl in Htok. apply andb_true_iff in Htok as [Hc Htok]. apply negb_true_iff in Hc.
    change (String c tok +:+ sep +:+ rest) with (String c (tok +:+ sep +:+ rest)).
    cbn [PyStr.re_split]. by rewrite Hc, IH.
Qed.

Lemma append_nonempty (a b : string) : b ≠ EmptyString → a +:+ b ≠ EmptyString.
Proof. by destruct a. Qed.

Lemma rstrip_app sp (a b : string) :
  b ≠ EmptyString → PyStr.rstrip_by sp b = b → PyStr.rstrip_by sp (a +:+ b) = a +:+ b.
Proof.
  intros Hne Hb. induction a as [|c a IH]; [done|].
  change (String c a +:+ b) with (String c (a +:+ b)).
  cbn [PyStr.rstrip_by]. rewrite IH.
  pose proof (append_nonempty a b Hne). by destruct (a +:+ b).
Qed.

(** The tokens of a text that begins with a token and goes on after
    separators. *)
Lemma port_parts_cons tok sep rest :
  tok ≠ EmptyString →
  str_forall (λ c, negb (port_sep c)) tok = true →
  sep ≠ EmptyString → str_forall port_sep sep = true →
  rest ≠ EmptyString → PyStr.starts_in port_sep rest = false →
  PyStr.rstrip_by PyStr.isspace rest = rest →
  port_parts (tok +:+ sep +:+ rest) = tok :: port_parts rest.
Proof.
  intros Htne Htok Hsne Hsep Hrne Hstart Hend.
  assert (PyStr.starts_in PyStr.isspace rest = false) as Hstart'.
  { destruct rest as [|c rest]; [done|]. simpl in *. unfold port_sep in Hstart.
    by destruct (PyStr.isspace c). }
  assert (PyStr.strip rest = rest) as Hrest.
  { unfold PyStr.strip. by rewrite lstrip_id. }
  assert (PyStr.strip (tok +:+ sep +:+ rest) = tok +:+ sep +:+ rest) as Hall.
  { unfold PyStr.strip. rewrite lstrip_id.
    - apply rstrip_app; [by apply append_nonempty|]. by apply rstrip_app.
    - destruct tok as [|c tok]; [done|]. simpl in *.
      apply andb_true_iff in Htok as [Hc _]. unfold port_sep in Hc.
      by destruct (PyStr.isspace c). }
  unfold port_parts. rewrite Hall, Hrest. by apply re_split_app.
Qed.

(** C6: a token [a-b] whose two sides parse adds exactly the integers from
    [min(a', b')] to [max(a', b')], where [a'] is [a] raised to at least 1
    and [b'] is [b] lowered to at most 65535; a token with a dash that does
    not split into two integers adds nothing.  That is what the token
    contributes to the list [parse_ports] returns: alone it gives its
    range, sorted; followed by separators and more text it is the first
    piece, and the list holds its range and what the rest of the text
    gives; wherever it stands among the pieces of a text, its range is in
    the list.  [parse_ports "10-5"] is [5..10] and [parse_ports "70000"]
    is empty. *)
Theorem parse_ports_dash_token (p : string) :
  PyStr.contains "-" p = true →
  str_forall (λ c, negb (port_sep c)) p = true →
  (∀ sa sb a b,
      PyStr.split "-" p = [sa; sb] → PyStr.int sa = Some a → PyStr.int sb = Some b →
      ∀ ports x, x ∈ parse_ports_token ports p ↔
           x ∈ ports ∨ Z.min (Z.max 1 a) (Z.min 65535 b) ≤ x ≤ Z.max (Z.max 1 a) (Z.min 65535 b))
  ∧ ((∀ sa sb, PyStr.split "-" p = [sa; sb] → PyStr.int sa = None ∨ PyStr.int sb = None) →
     ∀ ports, parse_ports_token ports p = ports)
  ∧ parse_ports p = merge_sort Z.le (elements (parse_ports_token ∅ p))
  ∧ (∀ sep rest,
       sep ≠ EmptyString → str_forall port_sep sep = true →
       rest ≠ EmptyString → PyStr.starts_in port_sep rest = false →
       PyStr.rstrip_by PyStr.isspace rest = rest →
       port_parts (p +:+ sep +:+ rest) = p :: port_parts rest
       ∧ ∀ x, x ∈ parse_ports (p +:+ sep +:+ rest)
              ↔ x ∈ parse_ports_token ∅ p ∨ x ∈ parse_ports rest)
  ∧ (∀ text x, p ∈ port_parts text → x ∈ parse_ports_token ∅ p → x ∈ parse_ports text)
  ∧ (∀ text x, x ∈ parse_ports text ↔ ∃ q, q ∈ port_parts text ∧ x ∈ parse_ports_token ∅ q)
  ∧ parse_ports "10-5" = [5; 6; 7; 8; 9; 10]
  ∧ parse_ports "70000" = []
  ∧ parse_ports "1-3,7-9" = [1; 2; 3; 7; 8; 9]
  ∧ parse_ports " 10-5; 1-x 70000,3" = [3; 5; 6; 7; 8; 9; 10].
Proof.
  intros Hc Hplain.
  assert (p ≠ EmptyString) as Hne by (intros ->; discriminate Hc).
  split; [|split; [|split; [|split; [|split; [|split]]]]].
  - intros sa sb a b Hs Ha Hb ports x. by apply (parse_ports_token_range ports p sa sb a b x).
  - intros Hfail ports. by apply parse_ports_token_skip.
  - by apply parse_ports_one_token.
  - intros sep rest Hsne Hsep Hrne Hstart Hend.
    assert (port_parts (p +:+ sep +:+ rest) = p :: port_parts rest) as Hparts
      by (by apply port_parts_cons).
    split; [done|]. intros x. rewrite !elem_of_parse_ports, Hparts. split.
    + intros (q & Hq & Hx). apply elem_of_cons in Hq as [-> | Hq]; [by left|].
      right. by exists q.
    + intros [Hx | (q & Hq & Hx)].
      * exists p. split; [left|done].
      * exists q. split; [by right|done].
  - intros text x Hp Hx. apply elem_of_parse_ports. by exists p.
  - apply elem_of_parse_ports.
  - repeat split; vm_compute; reflexivity.
Qed.

Lemma parse_ports_dash_token_witness :
  (7 ∈ parse_ports_token ∅ "10-5" ∧ 11 ∉ parse_ports_token ∅ "10-5")
  ∧ port_parts "10-5, ;22" = "10-5"%string :: port_parts "22"
  ∧ parse_ports_token {[22]} "1-x" = {[22]}.
Proof.
  split; [split|split].
  - apply (proj1 (parse_ports_dash_token "10-5" eq_refl eq_refl)
             "10" "5" 10 5 eq_refl eq_refl eq_refl ∅ 7)%string.
    right. lia.
  - intros H.
    apply (proj1 (parse_ports_dash_token "10-5" eq_refl eq_refl)
             "10" "5" 10 5 eq_refl eq_refl eq_refl ∅ 11)%string in H.
    destruct H as [H|H]; [by apply not_elem_of_empty in H | lia].
  - apply (proj1 (proj2 (proj2 (proj2 (parse_ports_dash_token "10-5" eq_refl eq_refl))))
             ", ;" "22")%string; (discriminate || reflexivity).
  - apply (proj1 (proj2 (parse_ports_dash_token "1-x" eq_refl eq_refl))).
    intros sa sb Hs. injection Hs as <- <-. by right.
Defined.

(** * Exported files, record by record *)

Definition header_cells : list string :=
  ["Alvo"; "Protocolo"; "Porta"; "Estado"; "Info"]%string.

(** The cells of a record as the GUI exports it: the state under its
    display name. *)
Definition localized_cells (r : ScanResult) : list string :=
  [target r; proto r; PyStr.str_of_int (port r); traduz_estado (state r); info r].

(** A file of lines, each with its line end. *)
Definition lines_text (eol : string) (lines : list string) : string :=
  foldr (λ l rest, (l +:+ eol) +:+ rest) EmptyString lines.

Lemma export_csv_text results filepath :
  results ≠ [] → filepath ≠ EmptyString →
  Gui.export_csv results filepath
  = Some (lines_text CRLF
            ("Alvo,Protocolo,Porta,Estado,Info"%string
             :: ((λ r, join "," (Gui.csv_field <$> localized_cells r)) <$> results))).
Proof.
  intros Hr Hf. unfold Gui.export_csv. rewrite !bool_decide_eq_false_2 by done.
  unfold lines_text. cbn [foldr]. by rewrite foldr_fmap.
Qed.

Lemma export_txt_text results filepath :
  results ≠ [] → filepath ≠ EmptyString →
  Gui.export_txt results filepath
  = Some (lines_text LF ((λ r, join TAB (localized_cells r)) <$> results)).
Proof.
  intros Hr Hf. unfold Gui.export_txt. rewrite !bool_decide_eq_false_2 by done.
  unfold lines_text. by rewrite foldr_fmap.
Qed.

Lemma traduz_estado_not_a_state s : s ∈ scan_states → traduz_estado s ∉ scan_states.
Proof.
  unfold scan_states. rewrite !elem_of_cons, !elem_of_nil.
  intros H; destruct_or!; subst; try done;
    vm_compute; intros H; destruct_or!; try done; discriminate.
Qed.

(** The body of the port loop of the CLI, by the answers of its probes. *)
Lemma cli_scan_port_tcp env (a : Cli.args) t acc p w st inf w1 :
  Cli.tcp a = true →
  (if Cli.syn a then tcp_syn_scan_cli env t p (Cli.timeout a)
   else tcp_connect_scan_cli env t p (Cli.timeout a)) w = (Ok (st, inf), w1) →
  (Cli.udp a = false →
     Cli.scan_port env a t acc p w
     = (Ok (acc ++ [join TAB [t; "TCP"%string; PyStr.str_of_int p; st; inf]]), w1))
  ∧ (Cli.udp a = true →
     ∀ st2 inf2 w2, udp_scan env t p (Cli.timeout a) w1 = (Ok (st2, inf2), w2) →
       Cli.scan_port env a t acc p w
       = (Ok (acc ++ [join TAB [t; "TCP"%string; PyStr.str_of_int p; st; inf];
                      join TAB [t; "UDP"%string; PyStr.str_of_int p; st2; inf2]]), w2)).
Proof.
  intros Ht E. unfold Cli.scan_port. rewrite Ht. unfold_M. split.
  - intros ->. by destruct (Cli.syn a); rewrite E.
  - intros -> st2 inf2 w2 E2.
    destruct (Cli.syn a); rewrite E, E2; by rewrite <- app_assoc.
Qed.

Lemma cli_scan_port_udp env (a : Cli.args) t acc p w st inf w1 :
  Cli.tcp a = false → Cli.udp a = true →
  udp_scan env t p (Cli.timeout a) w = (Ok (st, inf), w1) →
  Cli.scan_port env a t acc p w
  = (Ok (acc ++ [join TAB [t; "UDP"%string; PyStr.str_of_int p; st; inf]]), w1).
Proof.
  intros Ht Hu E. unfold Cli.scan_port. rewrite Ht, Hu. unfold_M. by rewrite E.
Qed.

(** The file [main] writes holds the lines of its scan under the header. *)
Lemma main_written
    (ip_network_hosts : string → option (list string))
    (ipv4_literal ipv6_literal : string → bool)
    (write_error : string → string → option string)
    (env : Env) (c : Main.cmdline) (w : world) out w' path text :
  Main.main ip_network_hosts ipv4_literal ipv6_literal write_error env c w = (Ok out, w') →
  Main.written out = Some (path, text) →
  ∃ lines,
    Cli.scan env (Main.flags c)
      (parse_targets ip_network_hosts ipv4_literal ipv6_literal (Main.target_arg c))
      (parse_ports (Main.ports_arg c)) w = (Ok lines, w')
    ∧ Cli.output (Main.flags c) = Some path
    ∧ text = Cli.output_text lines.
Proof.
  intros E Hw.
  destruct (decide (parse_targets ip_network_hosts ipv4_literal ipv6_literal
                      (Main.target_arg c) = [])) as [Ht|Ht].
  { destruct (main_rejects ip_network_hosts ipv4_literal ipv6_literal write_error env c w)
      as [msg Em]; [by right; left|].
    rewrite Em in E. by simplify_eq. }
  destruct (decide (parse_ports (Main.ports_arg c) = [])) as [Hp|Hp].
  { destruct (main_rejects ip_network_hosts ipv4_literal ipv6_literal write_error env c w)
      as [msg Em]; [by right; right|].
    rewrite Em in E. by simplify_eq. }
  destruct (Cli.tcp (Main.flags c)) eqn:Htcp, (Cli.udp (Main.flags c)) eqn:Hudp.
  4: { destruct (main_rejects ip_network_hosts ipv4_literal ipv6_literal write_error env c w)
         as [msg Em]; [by left|].
       rewrite Em in E. by simplify_eq. }
  all: destruct (main_runs ip_network_hosts ipv4_literal ipv6_literal write_error env c w)
         as (lines & out' & w'' & Es & Em & _ & Hwritten); [rewrite ?Htcp, ?Hudp; auto|done|done|];
       rewrite Em in E; simplify_eq; exists lines; (split; [done|]);
       rewrite Hw in Hwritten;
       destruct (Cli.output (Main.flags c)) as [path'|]; [|done];
       case_bool_decide; [done|];
       destruct (write_error path' (Cli.output_text lines)); by simplify_eq.
Qed.

(** C8 (as amended): the CSV file the GUI exports is the header row of
    the five cells Alvo, Protocolo, Porta, Estado, Info followed by one
    row for each record, in order, and the file the CLI writes is the
    same names separated by tabs followed by one line for each probe of
    its scan; the GUI writes the state of every record, in its text file
    and in its CSV file, through the table open to Aberta, closed to
    Fechada, filtered to Filtrada, open|filtered to Aberta/Filtrada,
    unknown to Desconhecida, which is one-to-one on the five states and
    yields none of them; the CLI writes the state as the probe returned
    it, for every target, port and protocol. *)
Theorem export_header_and_states :
  (∀ results filepath, results ≠ [] → filepath ≠ EmptyString →
     Gui.export_csv results filepath
     = Some (lines_text CRLF
               ("Alvo,Protocolo,Porta,Estado,Info"%string
                :: ((λ r, join "," (Gui.csv_field <$> localized_cells r)) <$> results)))
     ∧ Gui.export_txt results filepath
       = Some (lines_text LF ((λ r, join TAB (localized_cells r)) <$> results)))
  ∧ (∀ results filepath, results = [] ∨ filepath = EmptyString →
       Gui.export_csv results filepath = None ∧ Gui.export_txt results filepath = None)
  ∧ (∀ results filepath text,
       Gui.export_csv results filepath = Some text → startswith csv_header text = true)
  ∧ (traduz_estado <$> scan_states)
    = ["Aberta"; "Fechada"; "Filtrada"; "Aberta/Filtrada"; "Desconhecida"]%string
  ∧ (∀ s1 s2, s1 ∈ scan_states → s2 ∈ scan_states →
              traduz_estado s1 = traduz_estado s2 → s1 = s2)
  ∧ (∀ s, s ∈ scan_states → traduz_estado s ∉ scan_states)
  ∧ (∀ lines, Cli.output_text lines = lines_text LF (join TAB header_cells :: lines)
              ∧ startswith (txt_header +:+ LF) (Cli.output_text lines) = true)
  ∧ (∀ env (a : Cli.args) targets ports w,
       ∃ lines w', Cli.scan env a targets ports w = (Ok lines, w')
                   ∧ Forall2 is_line_of lines (cli_jobs a targets ports))
  ∧ (∀ env (a : Cli.args) t acc p w st inf w1,
       Cli.tcp a = true →
       (if Cli.syn a then tcp_syn_scan_cli env t p (Cli.timeout a)
        else tcp_connect_scan_cli env t p (Cli.timeout a)) w = (Ok (st, inf), w1) →
       (Cli.udp a = false →
          Cli.scan_port env a t acc p w
          = (Ok (acc ++ [join TAB [t; "TCP"%string; PyStr.str_of_int p; st; inf]]), w1))
       ∧ (Cli.udp a = true →
          ∀ st2 inf2 w2, udp_scan env t p (Cli.timeout a) w1 = (Ok (st2, inf2), w2) →
            Cli.scan_port env a t acc p w
            = (Ok (acc ++ [join TAB [t; "TCP"%string; PyStr.str_of_int p; st; inf];
                           join TAB [t; "UDP"%string; PyStr.str_of_int p; st2; inf2]]), w2)))
  ∧ (∀ env (a : Cli.args) t acc p w st inf w1,
       Cli.tcp a = false → Cli.udp a = true →
       udp_scan env t p (Cli.timeout a) w = (Ok (st, inf), w1) →
       Cli.scan_port env a t acc p w
       = (Ok (acc ++ [join TAB [t; "UDP"%string; PyStr.str_of_int p; st; inf]]), w1))
  ∧ (∀ ip_network_hosts ipv4_literal ipv6_literal write_error env c w out w' path text,
       Main.main ip_network_hosts ipv4_literal ipv6_literal write_error env c w = (Ok out, w') →
       Main.written out = Some (path, text) →
       ∃ lines,
         Cli.scan env (Main.flags c)
           (parse_targets ip_network_hosts ipv4_literal ipv6_literal (Main.target_arg c))
           (parse_ports (Main.ports_arg c)) w = (Ok lines, w')
         ∧ Cli.output (Main.flags c) = Some path
         ∧ text = Cli.output_text lines).
Proof.
  split; [|split; [|split; [|split; [|split; [|split; [|split; [|split; [|split; [|split]]]]]]]]].
  - intros results filepath Hr Hf. split; [by apply export_csv_text | by apply export_txt_text].
  - intros results filepath [-> | ->]; unfold Gui.export_csv, Gui.export_txt.
    + done.
    + by repeat case_bool_decide.
  - apply export_csv_header.
  - vm_compute. reflexivity.
  - apply traduz_estado_injective.
  - apply traduz_estado_not_a_state.
  - intros lines. split; [reflexivity | apply startswith_app].
  - apply cli_scan_appends.
  - intros. by apply cli_scan_port_tcp.
  - intros. by apply cli_scan_port_udp.
  - intros. by eapply main_written.
Qed.

Definition sample_results : list ScanResult :=
  [mkScanResult "10.0.0.5" "tcp" 80 "open" "";
   mkScanResult "10.0.0.5" "udp" 53 "open|filtered" "Sem resposta"].

Lemma export_header_and_states_witness :
  Gui.export_csv sample_results "out.csv"
  = Some ("Alvo,Protocolo,Porta,Estado,Info" +:+ CRLF
          +:+ "10.0.0.5,tcp,80,Aberta," +:+ CRLF
          +:+ "10.0.0.5,udp,53,Aberta/Filtrada,Sem resposta" +:+ CRLF)
  ∧ Gui.export_txt sample_results "out.txt"
    = Some ("10.0.0.5" +:+ TAB +:+ "tcp" +:+ TAB +:+ "80" +:+ TAB +:+ "Aberta" +:+ TAB +:+ LF
            +:+ "10.0.0.5" +:+ TAB +:+ "udp" +:+ TAB +:+ "53" +:+ TAB +:+ "Aberta/Filtrada"
            +:+ TAB +:+ "Sem resposta" +:+ LF)
  ∧ Cli.scan_port (host_env false Established Sr1None) cli_tcp_connect "10.0.0.5" [] 80
      fresh_world
    = (Ok ["10.0.0.5" +:+ TAB +:+ "TCP" +:+ TAB +:+ "80" +:+ TAB +:+ "open" +:+ TAB],
       World ∅ 4 2).
Proof.
  assert (sample_results ≠ []) as Hr by discriminate.
  split; [|split].
  - rewrite (proj1 (proj1 export_header_and_states sample_results "out.csv"%string Hr
                      ltac:(discriminate))).
    vm_compute. reflexivity.
  - rewrite (proj2 (proj1 export_header_and_states sample_results "out.txt"%string Hr
                      ltac:(discriminate))).
    vm_compute. reflexivity.
  - apply (proj1 (proj1 (proj2 (proj2 (proj2 (proj2 (proj2 (proj2 (proj2 (proj2
             export_header_and_states))))))))
             (host_env false Established Sr1None) cli_tcp_connect "10.0.0.5"%string [] 80
             fresh_world "open"%string ""%string (World ∅ 4 2) eq_refl
             ltac:(vm_compute; reflexivity)) eq_refl).
Defined.
